(** * RAG_Project: a shallow embedding of the retrieval-augmented pipeline

    The development follows [src/rag_supabase.py] (class [SupabaseRAG]),
    [src/backend.py] (the HTTP endpoints) and [src/rag_pipeline.py]
    (class [RAGPipeline]).

    Python values are modelled by [pyval]; exceptions, the instances of
    [Exception] that [except Exception] catches, by [exn]; the
    embedding provider, the Supabase store, the chat model and the
    third-party libraries (document loaders, text splitter, json) are the
    fields of an environment record [Env].  Every call that leaves the
    process is recorded, in order, in the [calls] component of the state,
    and every string handed to the consumer of a generator in its [out]
    component.  Output printed with [print] is not modelled, except where
    evaluating the printed expression can raise. *)

From Stdlib Require Import ZArith List Ascii String.
From Stdlib.Floats Require Import SpecFloat.
From stdpp Require Import base option list gmap strings pretty.

Set Warnings "-register-all".
Local Open Scope Z_scope.
Local Open Scope string_scope.
Local Open Scope list_scope.

(** ** Python values *)

(** A float is an IEEE-754 binary64 value in the representation of the
    standard library's [SpecFloat]: [S754_finite s m e] is (-1)^s * m * 2^e. *)
Abbreviation float := spec_float.

Inductive pyval : Type :=
| PNone
| PBool (b : bool)
| PInt (z : Z)
| PFloat (f : float)
| PStr (s : string)
| PList (l : list pyval)
| PDict (d : gmap string pyval).

(** A Python [dict] whose keys are strings. *)
Abbreviation dict := (gmap string pyval).

(** Instances of Python's [Exception].  [RemoteError] stands for whatever
    an external collaborator (embedding provider, store, chat model, file
    system) raises; [HTTPException] is FastAPI's. *)
Inductive exn : Type :=
| KeyError (key : string)
| TypeError
| ValueError (msg : string)
| AttributeError
| OverflowError
| RemoteError (msg : string)
| HTTPException (status_code : Z) (detail : string).

(** The literal [0.0]. *)
Definition float_zero : float := S754_zero false.

(** [float(z)] for an [int]: round to nearest even at 53 bits; Python raises
    [OverflowError] where the rounded value would be infinite. *)
Definition float_of_int (z : Z) : exn + float :=
  match binary_normalize 53 1024 z 0 false with
  | S754_infinity _ => inl OverflowError
  | f => inr f
  end.

(** ** Fixed-point formatting, the [f] presentation type *)

(** [round_half_even num den] is the integer nearest to [num / den]
    ([den > 0], [num >= 0]), ties going to the even one. *)
Definition round_half_even (num den : Z) : Z :=
  let q := num / den in
  let r := num mod den in
  match (2 * r) ?= den with
  | Lt => q
  | Gt => q + 1
  | Eq => if Z.even q then q else q + 1
  end.

(** The digits of [n], left-padded with zeros to [width] characters. *)
Definition zero_pad (width : nat) (n : Z) : string :=
  let s := pretty n in
  String.concat "" (replicate (width - String.length s)%nat "0") +:+ s.

(** [m * 2^e] with [prec] digits after the point, correctly rounded. *)
Definition fixed_digits (prec : nat) (m : positive) (e : Z) : string :=
  let scale := 10 ^ Z.of_nat prec in
  let n := match e with
           | Zneg p => round_half_even (Z.pos m * scale) (2 ^ Z.pos p)
           | _ => Z.pos m * 2 ^ e * scale
           end in
  pretty (n / scale) +:+ "." +:+ zero_pad prec (n mod scale).

Definition sign_prefix (s : bool) : string := if s then "-" else "".

(** [format(f, '.<prec>f')] for a float, [prec > 0]. *)
Definition format_float (prec : nat) (f : float) : string :=
  match f with
  | S754_zero s => sign_prefix s +:+ "0." +:+ zero_pad prec 0
  | S754_infinity s => sign_prefix s +:+ "inf"
  | S754_nan => "nan"
  | S754_finite s m e => sign_prefix s +:+ fixed_digits prec m e
  end.

(** [format(v, '.<prec>f')] for any value: numbers are converted to float,
    a [str] rejects the format code, everything else has no [__format__]
    accepting it. *)
Definition format_f (prec : nat) (v : pyval) : exn + string :=
  match v with
  | PFloat f => inr (format_float prec f)
  | PInt z => match float_of_int z with
              | inr f => inr (format_float prec f)
              | inl e => inl e
              end
  | PBool b => inr (format_float prec
                      (if b then S754_finite false 1 0 else float_zero))
  | PStr _ => inl (ValueError "Unknown format code 'f' for object of type 'str'")
  | _ => inl TypeError
  end.

(** ** Values as the f-string prints them *)

(** [str(v)], which is what an f-string field without a format spec
    inserts.  The text of a float and of a container is produced by
    [repr_other], a parameter. *)
Definition py_str (repr_other : pyval → string) (v : pyval) : string :=
  match v with
  | PStr s => s
  | PInt z => pretty z
  | PBool true => "True"
  | PBool false => "False"
  | PNone => "None"
  | _ => repr_other v
  end.

(** [v[key]] for a string key. *)
Definition subscript (v : pyval) (key : string) : exn + pyval :=
  match v with
  | PDict d => match d !! key with
               | Some x => inr x
               | None => inl (KeyError key)
               end
  | _ => inl TypeError
  end.

(** [v.get(key, dflt)]: only a [dict] has the method. *)
Definition get_method (v : pyval) (key : string) (dflt : pyval) : exn + pyval :=
  match v with
  | PDict d => inr (default dflt (d !! key))
  | _ => inl AttributeError
  end.

(** Truthiness of a list, as tested by [if xs:] and [if not xs:]. *)
Definition truthy {A} (xs : list A) : bool :=
  match xs with [] => false | _ => true end.

(** ** Documents, rows and records *)

(** A langchain [Document]. *)
Record document := Document {
  page_content : string;
  metadata : dict
}.

Abbreviation embedding := (list float).

(** The dict appended to [insert_data] in [_store_chunks]; its three keys
    are fixed by the dict display in the source. *)
Record new_row := NewRow {
  nr_content : string;
  nr_metadata : string;
  nr_embedding : embedding
}.

(** A row of the [documents] table.  The table's schema is not in the
    repository; the row has the three inserted columns and the [id] column
    that [select('id', ...)] and [neq('id', 0)] refer to, an integer since
    it is compared with [0]. *)
Record record := Record_ {
  rec_id : Z;
  rec_content : string;
  rec_metadata : string;
  rec_embedding : embedding
}.

(** ** Calls that leave the process *)

Inductive call : Type :=
| EmbedQuery (text : string)
    (* self.embeddings.embed_query(text) *)
| SelectCount
    (* self.supabase.table('documents').select('id', count='exact').execute() *)
| Rpc (fn : string) (params : dict)
    (* self.supabase.rpc(fn, params).execute() *)
| Insert (rows : list new_row)
    (* self.supabase.table('documents').insert(rows).execute() *)
| DeleteNeq (column : string) (value : Z)
    (* self.supabase.table('documents').delete().neq(column, value).execute() *)
| AStream (template : string) (inputs : gmap string string)
    (* (prompt | self.llm | StrOutputParser()).astream(inputs) *)
| LoadFile (loader : string) (file_path : string).
    (* PyPDFLoader(file_path).load(), TextLoader(file_path, ...).load() *)

(** The state threaded through the program. *)
Record world := World {
  table : list record;   (* the rows of [documents] *)
  calls : list call;     (* external calls issued so far, oldest first *)
  out : list string      (* strings yielded to the consumer, oldest first *)
}.

(** The collaborators.  [fault] decides, from the calls made so far and the
    call being made, whether that call raises; the other fields give the
    answer of a call that does not raise. *)
Record Env := {
  fault : list call → call → option exn;
  embed_vector : string → embedding;
  (* the rows a remote procedure returns, from its name, the table and
     its params *)
  rpc_data : string → list record → dict → list dict;
  (* the table that a write that raised leaves behind *)
  after_failed_write : call → list record → list record;
  (* the id the store gives the next inserted row *)
  fresh_id : list record → Z;
  (* fragments produced by the chat model, then possibly an exception *)
  llm_stream : string → gmap string string → list string * option exn;
  (* json.dumps and json.loads *)
  json_dumps : pyval → string;
  json_loads : string → exn + pyval;
  repr_other : pyval → string;
  (* str(e) for an exception *)
  str_exception : exn → string;
  (* what a loader reads from a path *)
  read_file : string → string → list document;
  (* RecursiveCharacterTextSplitter(chunk_size, chunk_overlap, separators)
       .split_documents(documents) *)
  text_splitter : Z → Z → list string → list document → exn + list document
}.

(** ** The monad: state and exceptions *)

Definition M (A : Type) : Type := world → (exn + A) * world.

Definition ret {A} (a : A) : M A := λ w, (inr a, w).
Definition raise {A} (e : exn) : M A := λ w, (inl e, w).
Definition bind {A B} (k : A → M B) (m : M A) : M B :=
  λ w, match m w with
       | (inr a, w') => k a w'
       | (inl e, w') => (inl e, w')
       end.
#[export] Instance M_ret : MRet M := @ret.
#[export] Instance M_bind : MBind M := @bind.

(** [try: body except Exception as e: handler e]. *)
Definition try_except {A} (body : M A) (handler : exn → M A) : M A :=
  λ w, match body w with
       | (inl e, w') => handler e w'
       | r => r
       end.
(** An expression that raises or gives a value, without touching the state. *)
Definition lift {A} (r : exn + A) : M A :=
  match r with inl e => raise e | inr a => ret a end.
(** [yield s] inside a generator. *)
Definition yield (s : string) : M unit :=
  λ w, (inr tt, World (table w) (calls w) (out w ++ [s])).

(** [for x in xs: body x]. *)
Fixpoint for_each {A} (xs : list A) (body : A → M unit) : M unit :=
  match xs with
  | [] => ret tt
  | x :: rest => body x;; for_each rest body
  end.

(** A call [c] to a collaborator that reads or computes: it is recorded;
    it raises when the environment says so; otherwise [answer] gives its
    result from the table.  The table is not changed. *)
Definition external {A} (E : Env) (c : call) (answer : list record → A)
    : M A :=
  λ w, let w1 := World (table w) (calls w ++ [c]) (out w) in
       match fault E (calls w) c with
       | Some e => (inl e, w1)
       | None => (inr (answer (table w)), w1)
       end.

(** A call [c] that writes to the table: when it does not raise, [effect]
    gives the new table; when it raises, the table is what the store left,
    which the environment decides (the store promises no rollback). *)
Definition external_write (E : Env) (c : call)
    (effect : list record → list record) : M unit :=
  λ w, match fault E (calls w) c with
       | Some e =>
           (inl e,
            World (after_failed_write E c (table w)) (calls w ++ [c]) (out w))
       | None => (inr tt, World (effect (table w)) (calls w ++ [c]) (out w))
       end.

(** ** Strings *)

(** The escape [\n]. *)
Definition NL : string := String "010"%char EmptyString.

(** [s.endswith(suffix)]. *)
Definition endswith (s suffix : string) : bool :=
  let n := String.length s in
  let k := String.length suffix in
  (k <=? n)%nat && String.eqb (String.substring (n - k) k s) suffix.

(** [sep.join(items)]: every item must be a [str]. *)
Fixpoint str_items (items : list pyval) : exn + list string :=
  match items with
  | [] => inr []
  | PStr s :: rest =>
      match str_items rest with
      | inr ss => inr (s :: ss)
      | inl e => inl e
      end
  | _ :: _ => inl TypeError
  end.

Definition join (sep : string) (items : list pyval) : exn + string :=
  match str_items items with
  | inr ss => inr (String.concat sep ss)
  | inl e => inl e
  end.

(** [enumerate(xs, start)]. *)
Fixpoint enumerate {A} (start : nat) (xs : list A) : list (nat * A) :=
  match xs with
  | [] => []
  | x :: rest => (start, x) :: enumerate (S start) rest
  end.

(** [[f(x) for x in xs]] where [f] may raise. *)
Fixpoint comprehension {A B} (f : A → exn + B) (xs : list A) : exn + list B :=
  match xs with
  | [] => inr []
  | x :: rest =>
      match f x with
      | inl e => inl e
      | inr y =>
          match comprehension f rest with
          | inl e => inl e
          | inr ys => inr (y :: ys)
          end
      end
  end.

(** * rag_supabase.py *)

Module SupabaseRAG.

(** The message yielded when nothing was retrieved (line 160). *)
Definition fallback_message : string :=
  "I don't have enough information to answer that question. Please make sure documents are uploaded and the database is set up correctly.".

(** The prompt template of [query_stream] (lines 168-176). *)
Definition template : string :=
  "You are a helpful AI assistant. Use the following context to answer the question." +:+ NL +:+
  "If you don't know the answer, say so. Be concise and accurate." +:+ NL +:+
  NL +:+
  "Context:" +:+ NL +:+
  "{context}" +:+ NL +:+
  NL +:+
  "Question: {question}" +:+ NL +:+
  NL +:+
  "Answer:".

(** The heading of the attribution section (line 188). *)
Definition sources_header : string :=
  NL +:+ NL +:+ "📚 **Sources:**" +:+ NL.

(** The separators given to the splitter (line 70). *)
Definition separators : list string := [NL +:+ NL; NL; " "; ""].

(** *** __init__ (lines 15-49) *)

(** The three settings read from the environment. *)
Record config := Config {
  supabase_url : string;
  supabase_key : string;
  openai_api_key : string
}.

(** [not v] for what [os.getenv] returns: [None] and the empty string are
    both false. *)
Definition unset (v : option string) : bool :=
  match v with
  | None => true
  | Some s => String.eqb s ""
  end.

(** The constructor.  [environ] is the process environment; [connect]
    stands for lines 33-47, which build the Supabase client, the embeddings
    and the chat model from the settings and may raise. *)
Definition __init__ {A} (environ : gmap string string)
    (connect : config → exn + A) : exn + A :=
  let supabase_url := environ !! "SUPABASE_URL" in
  let supabase_key := environ !! "SUPABASE_SERVICE_KEY" in
  let openai_api_key := environ !! "OPENAI_API_KEY" in
  if unset supabase_url then
    inl (ValueError "SUPABASE_URL environment variable not set.")
  else if unset supabase_key then
    inl (ValueError "SUPABASE_SERVICE_KEY environment variable not set.")
  else if unset openai_api_key then
    inl (ValueError "OPENAI_API_KEY environment variable not set.")
  else
    connect (Config (default "" supabase_url) (default "" supabase_key)
                    (default "" openai_api_key)).

Section WithEnv.
Variable E : Env.

(** *** The collaborators' methods *)

Definition embed_query (text : string) : M embedding :=
  external E (EmbedQuery text) (λ _, embed_vector E text).

(** [table('documents').select('id', count='exact').execute()]: the
    number of rows. *)
Definition select_count : M Z :=
  external E SelectCount (λ t, Z.of_nat (length t)).

(** [rpc(fn, params).execute()], giving [result.data]. *)
Definition rpc (fn : string) (params : dict) : M (list dict) :=
  external E (Rpc fn params) (λ t, rpc_data E fn t params).

(** The table after the rows are stored, each with the id the store
    assigns to it. *)
Fixpoint store_rows (t : list record) (rows : list new_row) : list record :=
  match rows with
  | [] => t
  | r :: rest =>
      store_rows
        (t ++ [Record_ (fresh_id E t) (nr_content r) (nr_metadata r)
                       (nr_embedding r)])
        rest
  end.

(** [table('documents').insert(rows).execute()]. *)
Definition insert (rows : list new_row) : M unit :=
  external_write E (Insert rows) (λ t, store_rows t rows).

(** [table('documents').delete().neq('id', value).execute()]: the rows
    whose id differs from [value] are deleted, the others stay. *)
Definition delete_neq_id (value : Z) : M unit :=
  external_write E (DeleteNeq "id" value)
    (λ t, filter (λ r, rec_id r = value) t).

(** [chain.astream(inputs)]: the fragments the model produces and the
    exception that ends the stream, if any. *)
Definition astream (inputs : gmap string string)
    : M (list string * option exn) :=
  external E (AStream template inputs) (λ _, llm_stream E template inputs).

(** [json.loads(v)]: the argument must be a [str]. *)
Definition loads (v : pyval) : exn + pyval :=
  match v with
  | PStr s => json_loads E s
  | _ => inl TypeError
  end.

(** *** _store_chunks (lines 81-109) *)

(** The metadata dict of lines 91-95. *)
Definition chunk_metadata (source_file : string) (i : nat) (chunk : document)
    : dict :=
  {[ "source" := PStr source_file;
     "chunk_index" := PInt (Z.of_nat i);
     "page" := default (PInt 0) (metadata chunk !! "page") ]}.

(** The loop of lines 86-101, from index [i] on, [insert_data] being what
    has been appended so far. *)
Fixpoint prepare_rows (source_file : string) (i : nat) (chunks : list document)
    (insert_data : list new_row) : M (list new_row) :=
  match chunks with
  | [] => mret insert_data
  | chunk :: rest =>
      embedding ← embed_query (page_content chunk);
      let metadata := chunk_metadata source_file i chunk in
      prepare_rows source_file (S i) rest
        (insert_data ++
           [NewRow (page_content chunk) (json_dumps E (PDict metadata))
                   embedding])
  end.

Definition _store_chunks (chunks : list document) (source_file : string)
    : M unit :=
  insert_data ← prepare_rows source_file 0 chunks [];
  try_except (insert insert_data) (λ e, raise e).

(** *** load_and_process_document (lines 51-79) *)

Definition load_and_process_document (file_path : string) : M nat :=
  loader ← (if endswith file_path ".pdf" then mret "PyPDFLoader"
            else if endswith file_path ".txt" then mret "TextLoader"
            else raise (ValueError "Unsupported file type"));
  documents ← external E (LoadFile loader file_path)
                (λ _, read_file E loader file_path);
  chunks ← lift (text_splitter E 1000 200 separators documents);
  _store_chunks chunks file_path;;
  mret (length chunks).

(** *** retrieve_relevant_chunks (lines 111-149) *)

(** The params of the [match_documents] call (lines 129-133). *)
Definition match_params (query_embedding : embedding) (k : Z) : dict :=
  {[ "query_embedding" := PList (PFloat <$> query_embedding);
     "match_threshold" := PFloat float_zero;
     "match_count" := PInt k ]}.

(** The f-string printed for each row (line 139); evaluating it raises
    when the row's similarity is missing or not a number. *)
Definition similarity_report (doc : dict) : M unit :=
  lift (format_f 4 (default (PStr "N/A") (doc !! "similarity")));;
  mret tt.

(** [k] is [None] when the caller leaves the argument out. *)
Definition retrieve_relevant_chunks (question : string) (k : option Z)
    : M (list dict) :=
  let k := default 4 k in
  try_except
    (query_embedding ← embed_query question;
     select_count;;
     data ← rpc "match_documents" (match_params query_embedding k);
     if truthy data then
       for_each data similarity_report;;
       mret data
     else mret [])
    (λ _, mret []).

(** *** query_stream (lines 151-192) *)

(** One pass of the loop of lines 189-192. *)
Definition source_line (entry : nat * dict) : M unit :=
  let '(i, doc) := entry in
  text ← lift (subscript (PDict doc) "metadata");
  metadata ← lift (loads text);
  let similarity := default (PInt 0) (doc !! "similarity") in
  source ← lift (subscript metadata "source");
  page ← lift (get_method metadata "page" (PStr "N/A"));
  score ← lift (format_f 2 similarity);
  yield (NL +:+ pretty i +:+ ". " +:+ py_str (repr_other E) source +:+
         " (page " +:+ py_str (repr_other E) page +:+
         ", similarity: " +:+ score +:+ ")").

(** The generator, run until it is exhausted or raises; what it yields is
    appended to [out]. *)
Definition query_stream (question : string) : M unit :=
  relevant_docs ← retrieve_relevant_chunks question (Some 3);
  if negb (truthy relevant_docs) then
    yield fallback_message
  else
    contents ← lift (comprehension (λ doc : dict, subscript (PDict doc) "content")
                       relevant_docs);
    context ← lift (join (NL +:+ NL) contents);
    stream ← astream {[ "context" := context; "question" := question ]};
    for_each stream.1 yield;;
    (match stream.2 with Some e => raise e | None => mret tt end);;
    yield sources_header;;
    for_each (enumerate 1 relevant_docs) source_line.

(** *** clear_database (lines 194-202) *)

Definition clear_database : M bool :=
  try_except
    (delete_neq_id 0;;
     mret true)
    (λ _, mret false).

End WithEnv.
End SupabaseRAG.

(** * backend.py *)

Module backend.

(** The endpoint [DELETE /clear] (lines 68-75): the JSON body it answers
    with, or the [HTTPException] it raises. *)
Definition clear_database (E : Env) : M dict :=
  try_except
    (SupabaseRAG.clear_database E;;
     mret ({[ "success" := PBool true;
              "message" := PStr "Database cleared" ]} : dict))
    (λ e, raise (HTTPException 500 (str_exception E e))).

(** The endpoint [POST /upload] (lines 35-56).  [written] is the outcome of
    copying the upload to [uploads/<filename>] (lines 40-42): [None] when
    the file was written, the exception otherwise. *)
Definition upload_document (E : Env) (filename : string)
    (written : option exn) : M dict :=
  try_except
    (let file_path := "uploads/" +:+ filename in
     match written with Some e => raise e | None => mret tt end;;
     num_chunks ← SupabaseRAG.load_and_process_document E file_path;
     mret ({[ "success" := PBool true;
              "message" := PStr ("Processed " +:+ pretty num_chunks +:+
                                 " chunks from " +:+ filename);
              "filename" := PStr filename ]} : dict))
    (λ e, match e with
          | ValueError _ =>
              raise (HTTPException 400
                       ("Invalid file type: " +:+ str_exception E e))
          | _ =>
              raise (HTTPException 500
                       ("Failed to upload document: " +:+ str_exception E e))
          end).

(** The Server-Sent-Events frame of line 64. *)
Definition frame (chunk : string) : string :=
  "data: " +:+ chunk +:+ NL +:+ NL.

(** The generator [generate] of [POST /query] (lines 61-64), run until it
    is exhausted or raises: it frames and yields every chunk that
    [query_stream] yields, and raises what [query_stream] raises. *)
Definition generate (E : Env) (question : string) : M unit :=
  λ w, let '(r, w') := SupabaseRAG.query_stream E question
                         (World (table w) (calls w) []) in
       (r, World (table w') (calls w') (out w ++ (frame <$> out w'))).

End backend.

(** * rag_pipeline.py *)

Module RAGPipeline.

(** The separators given to the splitter (line 40). *)
Definition separators : list string := [NL +:+ NL; NL; " "; ""].

(** [load_documents] (lines 20-32). *)
Definition load_documents (E : Env) (file_path : string) : M (list document) :=
  loader ← (if endswith file_path ".pdf" then mret "PyPDFLoader"
            else if endswith file_path ".txt" then mret "TextLoader"
            else raise (ValueError "Unsupported file type. Use .pdf or .txt"));
  external E (LoadFile loader file_path) (λ _, read_file E loader file_path).

(** [split_documents] (lines 34-45); an argument is [None] when the caller
    leaves it out.  The chunks are whatever the library's splitter gives. *)
Definition split_documents (E : Env) (documents : list document)
    (chunk_size chunk_overlap : option Z) : M (list document) :=
  lift (text_splitter E (default 1000 chunk_size) (default 200 chunk_overlap)
          separators documents).

End RAGPipeline.

(** * The vocabulary of the statements *)

Import SupabaseRAG.

(** ** clear_database *)

(** C1 as the specification words it: a delete that raises makes
    [clear_database] raise. *)
Definition clear_failure_propagates (E : Env) (w : world) : Prop :=
  ∀ e, fault E (calls w) (DeleteNeq "id" 0) = Some e →
       ∃ e' w', clear_database E w = (inl e', w').

(** C7 as the specification words it: after a successful clear the table
    is empty. *)
Definition clear_leaves_nothing (E : Env) (w : world) : Prop :=
  ∀ w', clear_database E w = (inr true, w') → length (table w') = 0%nat.

(** ** retrieve_relevant_chunks *)

(** The three calls of a retrieval, in the order of the source. *)
Definition retrieval_calls (E : Env) (question : string) (k : Z) : list call :=
  [EmbedQuery question;
   SelectCount;
   Rpc "match_documents"
       {[ "query_embedding" := PList (PFloat <$> embed_vector E question);
          "match_threshold" := PFloat (S754_zero false);
          "match_count" := PInt k ]}].

(** C2 as the specification words it: an embedding failure on the
    question makes the retrieval raise. *)
Definition embedding_failure_propagates
    (E : Env) (question : string) (k : option Z) (w : world) : Prop :=
  ∀ e, fault E (calls w) (EmbedQuery question) = Some e →
       ∃ e' w', retrieve_relevant_chunks E question k w = (inl e', w').

(** Whether every row has a similarity that the format [.4f] accepts. *)
Definition scores_ok (data : list dict) : bool :=
  forallb (λ doc : dict,
             match format_f 4 (default (PStr "N/A") (doc !! "similarity")) with
             | inr _ => true
             | inl _ => false
             end) data.

(** ** query_stream *)

(** What [query_stream] does once the retrieval has given a non-empty
    list (lines 163-192). *)
Definition answer_with_sources (E : Env) (question : string)
    (relevant_docs : list dict) : M unit :=
  contents ← lift (comprehension (λ doc : dict, subscript (PDict doc) "content")
                     relevant_docs);
  context ← lift (join (NL +:+ NL) contents);
  stream ← astream E {[ "context" := context; "question" := question ]};
  for_each stream.1 yield;;
  (match stream.2 with Some e => raise e | None => mret tt end);;
  yield sources_header;;
  for_each (enumerate 1 relevant_docs) (source_line E).

(** Steps that only yield: the table and the calls stay as they are. *)
Definition quiet {A} (m : M A) : Prop :=
  ∀ w, table (m w).2 = table w ∧ calls (m w).2 = calls w.

(** ** The attribution section of query_stream *)

(** What the claims say of a retrieved match: its content, its source, its
    page when there is one, and its score in two decimals. *)
Record match_view := MatchView {
  mv_content : string;
  mv_source : pyval;
  mv_page : option pyval;
  mv_score : string
}.

(** Row [doc] is a match with the fields of [v]: the content is a string,
    the metadata is JSON text for an object that has a source, the
    similarity is a number. *)
Definition describes (E : Env) (doc : dict) (v : match_view) : Prop :=
  doc !! "content" = Some (PStr (mv_content v))
  ∧ (∃ text md, doc !! "metadata" = Some (PStr text)
                ∧ json_loads E text = inr (PDict md)
                ∧ md !! "source" = Some (mv_source v)
                ∧ md !! "page" = mv_page v)
  ∧ (∃ similarity, doc !! "similarity" = Some similarity
                   ∧ format_f 2 similarity = inr (mv_score v)).

(** The [i]-th entry of the sources section. *)
Definition attribution_line (E : Env) (i : nat) (v : match_view) : string :=
  NL +:+ pretty i +:+ ". " +:+ py_str (repr_other E) (mv_source v) +:+
  " (page " +:+
  match mv_page v with
  | Some page => py_str (repr_other E) page
  | None => "N/A"
  end +:+
  ", similarity: " +:+ mv_score v +:+ ")".

(** The context given to the model: the contents, two newlines between
    them. *)
Definition context_of (views : list match_view) : string :=
  String.concat (NL +:+ NL) (mv_content <$> views).

(** ** Ingestion *)

(** The embedding calls of an ingestion, one per chunk, in order. *)
Definition embed_calls (chunks : list document) : list call :=
  (λ chunk, EmbedQuery (page_content chunk)) <$> chunks.

(** The row prepared for the chunk at index [i]. *)
Definition row_of (E : Env) (source_file : string) (i : nat) (chunk : document)
    : new_row :=
  NewRow (page_content chunk)
         (json_dumps E (PDict (chunk_metadata source_file i chunk)))
         (embed_vector E (page_content chunk)).

(** The loader that [load_and_process_document] and [load_documents]
    choose for a path, if any. *)
Definition loader_for (file_path : string) : option string :=
  if endswith file_path ".pdf" then Some "PyPDFLoader"
  else if endswith file_path ".txt" then Some "TextLoader"
  else None.


(** The body that [upload_document] answers with after storing [n]
    chunks. *)
Definition upload_body (filename : string) (n : nat) : dict :=
  {[ "success" := PBool true;
     "message" := PStr ("Processed " +:+ pretty n +:+ " chunks from " +:+
                        filename);
     "filename" := PStr filename ]}.

(** The exception [upload_document] raises for an exception [e] of the
    processing. *)
Definition upload_error (E : Env) (e : exn) : exn :=
  match e with
  | ValueError _ =>
      HTTPException 400 ("Invalid file type: " +:+ str_exception E e)
  | _ =>
      HTTPException 500 ("Failed to upload document: " +:+ str_exception E e)
  end.

(** * Concrete environments and states *)

Module Scenario.

(** The metadata text that ingestion stores, and the text of a record
    stored by other means, without a page. *)
Definition ingested_metadata : string := "{source, chunk_index, page}".
Definition legacy_metadata : string := "{source}".

(** What [match_documents] returns for a stored record: its content and
    metadata, with similarity 0.875. *)
Definition match_of (r : record) : dict :=
  {[ "content" := PStr (rec_content r);
     "metadata" := PStr (rec_metadata r);
     "similarity" := PFloat (S754_finite false 7 (-3)) ]}.

(** Everything works: the store returns the first [match_count] records,
    the model answers in two fragments. *)
Definition healthy : Env := {|
  fault := λ _ _, None;
  embed_vector := λ _, [float_zero];
  rpc_data := λ _ t params,
    match params !! "match_count" with
    | Some (PInt k) => match_of <$> take (Z.to_nat k) t
    | _ => []
    end;
  after_failed_write := λ _ t, t;
  fresh_id := λ t, 1 + Z.of_nat (length t);
  llm_stream := λ _ _, (["RAG is "; "retrieval."], None);
  json_dumps := λ _, ingested_metadata;
  json_loads := λ text,
    if String.eqb text ingested_metadata then
      inr (PDict {[ "source" := PStr "uploads/a.txt";
                    "chunk_index" := PInt 0;
                    "page" := PInt 0 ]})
    else if String.eqb text legacy_metadata then
      inr (PDict {[ "source" := PStr "notes.txt" ]})
    else inl (ValueError "Expecting value");
  repr_other := λ _, "";
  str_exception := λ _, "unavailable";
  read_file := λ _ _,
    [Document "RAG stands for Retrieval-Augmented Generation." ∅];
  text_splitter := λ _ _ _ docs, inr docs
|}.

(** As [healthy], with the calls selected by [down] raising. *)
Definition failing (down : call → bool) : Env := {|
  fault := λ _ c, if down c then Some (RemoteError "unavailable") else None;
  embed_vector := embed_vector healthy;
  rpc_data := rpc_data healthy;
  after_failed_write := after_failed_write healthy;
  fresh_id := fresh_id healthy;
  llm_stream := llm_stream healthy;
  json_dumps := json_dumps healthy;
  json_loads := json_loads healthy;
  repr_other := repr_other healthy;
  str_exception := str_exception healthy;
  read_file := read_file healthy;
  text_splitter := text_splitter healthy
|}.

(** As [healthy], but the procedure returns rows without a similarity. *)
Definition unscored : Env := {|
  fault := fault healthy;
  embed_vector := embed_vector healthy;
  rpc_data := λ _ t _, (λ r, delete "similarity" (match_of r)) <$> t;
  after_failed_write := after_failed_write healthy;
  fresh_id := fresh_id healthy;
  llm_stream := llm_stream healthy;
  json_dumps := json_dumps healthy;
  json_loads := json_loads healthy;
  repr_other := repr_other healthy;
  str_exception := str_exception healthy;
  read_file := read_file healthy;
  text_splitter := text_splitter healthy
|}.

(** As [healthy], but the model's stream breaks after its first fragment. *)
Definition interrupted : Env := {|
  fault := fault healthy;
  embed_vector := embed_vector healthy;
  rpc_data := rpc_data healthy;
  after_failed_write := after_failed_write healthy;
  fresh_id := fresh_id healthy;
  llm_stream := λ _ _, (["RAG is "], Some (RemoteError "connection reset"));
  json_dumps := json_dumps healthy;
  json_loads := json_loads healthy;
  repr_other := repr_other healthy;
  str_exception := str_exception healthy;
  read_file := read_file healthy;
  text_splitter := text_splitter healthy
|}.

(** As [healthy], but the procedure returns rows without a content. *)
Definition contentless : Env := {|
  fault := fault healthy;
  embed_vector := embed_vector healthy;
  rpc_data := λ _ t _, (λ r, delete "content" (match_of r)) <$> t;
  after_failed_write := after_failed_write healthy;
  fresh_id := fresh_id healthy;
  llm_stream := llm_stream healthy;
  json_dumps := json_dumps healthy;
  json_loads := json_loads healthy;
  repr_other := repr_other healthy;
  str_exception := str_exception healthy;
  read_file := read_file healthy;
  text_splitter := text_splitter healthy
|}.

(** As [healthy], but reading a file raises ValueError. *)
Definition unreadable : Env := {|
  fault := λ _ c, match c with
                  | LoadFile _ _ => Some (ValueError "embedded null byte")
                  | _ => None
                  end;
  embed_vector := embed_vector healthy;
  rpc_data := rpc_data healthy;
  after_failed_write := after_failed_write healthy;
  fresh_id := fresh_id healthy;
  llm_stream := llm_stream healthy;
  json_dumps := json_dumps healthy;
  json_loads := json_loads healthy;
  repr_other := repr_other healthy;
  str_exception := str_exception healthy;
  read_file := read_file healthy;
  text_splitter := text_splitter healthy
|}.

(** A process environment with the three settings. *)
Definition environ : gmap string string :=
  {[ "SUPABASE_URL" := "https://db.example";
     "SUPABASE_SERVICE_KEY" := "service-key";
     "OPENAI_API_KEY" := "sk-key" ]}.

Definition is_embed (c : call) : bool :=
  match c with EmbedQuery _ => true | _ => false end.
Definition is_rpc (c : call) : bool :=
  match c with Rpc _ _ => true | _ => false end.
Definition is_insert (c : call) : bool :=
  match c with Insert _ => true | _ => false end.
Definition is_delete (c : call) : bool :=
  match c with DeleteNeq _ _ => true | _ => false end.
Definition is_count (c : call) : bool :=
  match c with SelectCount => true | _ => false end.
Definition is_astream (c : call) : bool :=
  match c with AStream _ _ => true | _ => false end.

(** A record as ingestion stores it, and one without a page. *)
Definition stored (id : Z) : record :=
  Record_ id "RAG stands for Retrieval-Augmented Generation."
          ingested_metadata [float_zero].
Definition legacy (id : Z) : record :=
  Record_ id "Notes on retrieval." legacy_metadata [float_zero].
(** A record whose metadata is not JSON. *)
Definition damaged (id : Z) : record :=
  Record_ id "Notes on retrieval." "source: notes.txt" [float_zero].

Definition empty_store : world := World [] [] [].
Definition one_record : world := World [stored 1] [] [].
Definition two_records : world := World [stored 1; legacy 2] [] [].
Definition record_zero : world := World [stored 0] [] [].
Definition two_ids : world := World [stored 0; stored 5] [] [].

Definition chunk : document :=
  Document "RAG stands for Retrieval-Augmented Generation." ∅.

(** Two chunks; the provider fails on the text of the second. *)
Definition two_chunks : list document :=
  [Document "first chunk" {[ "page" := PInt 7 ]};
   Document "second chunk" {[ "page" := PInt 7 ]}].
Definition second_chunk_embedding (c : call) : bool :=
  match c with
  | EmbedQuery text => String.eqb text "second chunk"
  | _ => false
  end.

End Scenario.

(** * Formatting on examples *)

Example format_f_0875 :
  format_f 2 (PFloat (S754_finite false 7 (-3))) = inr "0.88".
Proof. vm_compute. reflexivity. Qed.
Example format_f_0125 :
  format_f 2 (PFloat (S754_finite false 1 (-3))) = inr "0.12".
Proof. vm_compute. reflexivity. Qed.
Example format_f_int :
  format_f 4 (PInt 1) = inr "1.0000".
Proof. vm_compute. reflexivity. Qed.
Example format_f_small :
  format_f 2 (PFloat (S754_finite true 1 (-10))) = inr "-0.00".
Proof. vm_compute. reflexivity. Qed.

(** * Reasoning about runs *)

Section Runs.
Context {A B : Type}.

Lemma run_bind (m : M A) (k : A → M B) (w : world) :
  (m ≫= k) w = match m w with
                | (inr a, w') => k a w'
                | (inl e, w') => (inl e, w')
                end.
Proof. reflexivity. Qed.

Lemma run_bind_ok (m : M A) (k : A → M B) w a w' :
  m w = (inr a, w') → (m ≫= k) w = k a w'.
Proof. intros H. rewrite run_bind, H. reflexivity. Qed.

Lemma run_bind_raise (m : M A) (k : A → M B) w e w' :
  m w = (inl e, w') → (m ≫= k) w = (inl e, w').
Proof. intros H. rewrite run_bind, H. reflexivity. Qed.

Lemma run_try_ok (body : M A) handler w a w' :
  body w = (inr a, w') → try_except body handler w = (inr a, w').
Proof. intros H. unfold try_except. rewrite H. reflexivity. Qed.

Lemma run_try_raise (body : M A) handler w e w' :
  body w = (inl e, w') → try_except body handler w = handler e w'.
Proof. intros H. unfold try_except. rewrite H. reflexivity. Qed.

Lemma run_external_ok E c (answer : list record → A) w :
  fault E (calls w) c = None →
  external E c answer w
  = (inr (answer (table w)), World (table w) (calls w ++ [c]) (out w)).
Proof. intros H. unfold external. rewrite H. reflexivity. Qed.

Lemma run_external_fault E c (answer : list record → A) w e :
  fault E (calls w) c = Some e →
  external E c answer w = (inl e, World (table w) (calls w ++ [c]) (out w)).
Proof. intros H. unfold external. rewrite H. reflexivity. Qed.

End Runs.

Lemma run_write_ok E c effect w :
  fault E (calls w) c = None →
  external_write E c effect w
  = (inr tt, World (effect (table w)) (calls w ++ [c]) (out w)).
Proof. intros H. unfold external_write. rewrite H. reflexivity. Qed.

Lemma run_write_fault E c effect w e :
  fault E (calls w) c = Some e →
  external_write E c effect w
  = (inl e, World (after_failed_write E c (table w)) (calls w ++ [c]) (out w)).
Proof. intros H. unfold external_write. rewrite H. reflexivity. Qed.

(** A call to a collaborator adds exactly one call to the trace and leaves
    [out] alone, whatever happens. *)
Lemma external_trace {A} E c (answer : list record → A) w :
  calls (external E c answer w).2 = calls w ++ [c]
  ∧ out (external E c answer w).2 = out w.
Proof. unfold external. by destruct (fault E (calls w) c). Qed.

Lemma write_trace E c effect w :
  calls (external_write E c effect w).2 = calls w ++ [c]
  ∧ out (external_write E c effect w).2 = out w.
Proof. unfold external_write. by destruct (fault E (calls w) c). Qed.

(** * clear_database *)

(** With a store that rejects the delete, [clear_database] returns
    [False]: nothing is raised. *)
Lemma clear_failure_not_propagated :
  ¬ clear_failure_propagates (Scenario.failing Scenario.is_delete)
      Scenario.one_record.
Proof.
  intros H. destruct (H (RemoteError "unavailable") eq_refl) as (e' & w' & Hrun).
  vm_compute in Hrun. discriminate Hrun.
Qed.

Lemma clear_database_failure_run E w e :
  fault E (calls w) (DeleteNeq "id" 0) = Some e →
  clear_database E w
  = (inr false,
     World (after_failed_write E (DeleteNeq "id" 0) (table w))
           (calls w ++ [DeleteNeq "id" 0]) (out w)).
Proof.
  intros Hf. unfold clear_database.
  erewrite run_try_raise; [reflexivity|].
  apply run_bind_raise. unfold delete_neq_id.
  by apply run_write_fault.
Qed.

(** C1, as the code has it: [clear_database] returns a boolean and never
    raises.  When the store's delete call raises, it catches the exception
    and returns [False]: the caller gets a normal return value, the delete
    is the only call made and the table is what the failed delete left.
    When the delete does not raise, it returns [True]. *)
Theorem clear_database_returns_boolean E w :
  (∀ e, fault E (calls w) (DeleteNeq "id" 0) = Some e →
        clear_database E w
        = (inr false,
           World (after_failed_write E (DeleteNeq "id" 0) (table w))
                 (calls w ++ [DeleteNeq "id" 0]) (out w)))
  ∧ (fault E (calls w) (DeleteNeq "id" 0) = None →
     clear_database E w
     = (inr true,
        World (filter (λ r, rec_id r = 0) (table w))
              (calls w ++ [DeleteNeq "id" 0]) (out w))).
Proof.
  split.
  - intros e Hf. unfold clear_database, try_except.
    rewrite run_bind. unfold delete_neq_id.
    rewrite (run_write_fault E _ _ w e Hf). reflexivity.
  - intros Hf. unfold clear_database, try_except.
    rewrite run_bind. unfold delete_neq_id.
    rewrite (run_write_ok E _ _ w Hf). reflexivity.
Qed.

Lemma clear_database_returns_boolean_witness :
  clear_database (Scenario.failing Scenario.is_delete) Scenario.one_record
  = (inr false, World [Scenario.stored 1] [DeleteNeq "id" 0] [])
  ∧ clear_database Scenario.healthy Scenario.one_record
    = (inr true, World [] [DeleteNeq "id" 0] []).
Proof.
  split.
  - apply (proj1 (clear_database_returns_boolean
                    (Scenario.failing Scenario.is_delete) Scenario.one_record)
             (RemoteError "unavailable")).
    reflexivity.
  - apply (proj2 (clear_database_returns_boolean Scenario.healthy
                    Scenario.one_record)).
    reflexivity.
Defined.

(** What a successful delete leaves in the table. *)
Lemma clear_database_success E w w' :
  clear_database E w = (inr true, w') →
  fault E (calls w) (DeleteNeq "id" 0) = None
  ∧ w' = World (filter (λ r, rec_id r = 0) (table w))
               (calls w ++ [DeleteNeq "id" 0]) (out w).
Proof.
  intros Hrun.
  destruct (fault E (calls w) (DeleteNeq "id" 0)) as [e|] eqn:Hf.
  - rewrite (clear_database_failure_run E w e Hf) in Hrun.
    discriminate Hrun.
  - split; [done|]. revert Hrun. unfold clear_database, delete_neq_id.
    erewrite run_try_ok; [|erewrite run_bind_ok; [reflexivity|]].
    2: { by apply run_write_ok. }
    simpl. by intros [= <-].
Qed.

(** A record whose id is 0 does not match the filter [neq('id', 0)] and
    survives a successful clear. *)
Lemma clear_keeps_record_zero :
  ¬ clear_leaves_nothing Scenario.healthy Scenario.record_zero.
Proof.
  intros H.
  specialize (H (World [Scenario.stored 0] [DeleteNeq "id" 0] []) eq_refl).
  discriminate H.
Qed.


(** What a successful [clear_database] removes: the records whose id
    differs from 0; the table is left empty exactly when it held no record
    with id 0. *)
Lemma clear_database_removes_nonzero_ids E w w' :
  clear_database E w = (inr true, w') →
  table w' = filter (λ r, rec_id r = 0) (table w)
  ∧ (length (table w') = 0%nat ↔ ∀ r, r ∈ table w → rec_id r ≠ 0).
Proof.
  intros Hrun. apply clear_database_success in Hrun as [_ ->]. simpl.
  split; [done|]. rewrite length_zero_iff_nil. split.
  - intros Hnil r Hr Hid.
    assert (r ∈ filter (λ r, rec_id r = 0) (table w)) as Hin
      by (apply list_elem_of_filter; done).
    rewrite Hnil in Hin. by apply not_elem_of_nil in Hin.
  - intros Hall. induction (table w) as [|r t IH]; [done|].
    rewrite filter_cons. destruct (decide (rec_id r = 0)) as [Hid|_].
    + exfalso. apply (Hall r); [left|done].
    + apply IH. intros r' Hr'. apply Hall. by right.
Qed.

(** [clear_database] has no path that raises. *)
Lemma clear_database_never_raises E w :
  ∃ b w', clear_database E w = (inr b, w').
Proof.
  destruct (fault E (calls w) (DeleteNeq "id" 0)) as [e|] eqn:Hf.
  - rewrite (clear_database_failure_run E w e Hf). eauto.
  - unfold clear_database, delete_neq_id.
    erewrite run_try_ok; [eauto|].
    erewrite run_bind_ok; [reflexivity|]. by apply run_write_ok.
Qed.

(** The endpoint discards what [clear_database] returns: it answers with
    the success body whether or not the delete went through, and its handler
    for exceptions is never entered. *)
Lemma endpoint_clear_always_answers_success E w :
  ∃ w', backend.clear_database E w
        = (inr {[ "success" := PBool true;
                  "message" := PStr "Database cleared" ]}, w').
Proof.
  destruct (clear_database_never_raises E w) as (b & w' & Hrun).
  exists w'. unfold backend.clear_database.
  erewrite run_try_ok; [reflexivity|].
  erewrite run_bind_ok; [reflexivity|exact Hrun].
Qed.

(** Ingesting a text file into an empty table and clearing it leaves the
    table empty, the store numbering its rows from 1. *)
Example ingest_then_clear :
  let w1 := (load_and_process_document Scenario.healthy "uploads/a.txt"
               Scenario.empty_store).2 in
  length (table w1) = 1%nat
  ∧ table (clear_database Scenario.healthy w1).2 = [].
Proof. split; reflexivity. Qed.

(** * retrieve_relevant_chunks *)

(** [retrieve_relevant_chunks] has no path that raises. *)
Lemma retrieve_never_raises E question k w :
  ∃ docs, (retrieve_relevant_chunks E question k w).1 = inr docs.
Proof.
  unfold retrieve_relevant_chunks, try_except.
  match goal with |- context [match ?b with _ => _ end] => destruct b as [[e|docs] w'] end;
    simpl; eauto.
Qed.

Lemma retrieve_embedding_failure E question k w e :
  fault E (calls w) (EmbedQuery question) = Some e →
  retrieve_relevant_chunks E question k w
  = (inr [], World (table w) (calls w ++ [EmbedQuery question]) (out w)).
Proof.
  intros Hf. unfold retrieve_relevant_chunks.
  erewrite run_try_raise; [reflexivity|].
  apply run_bind_raise. by apply run_external_fault.
Qed.

Lemma retrieve_search_failure E question k w e :
  fault E (calls w) (EmbedQuery question) = None →
  fault E (calls w ++ [EmbedQuery question]) SelectCount = None →
  fault E (calls w ++ [EmbedQuery question; SelectCount])
        (Rpc "match_documents"
             (match_params (embed_vector E question) (default 4 k)))
    = Some e →
  retrieve_relevant_chunks E question k w
  = (inr [], World (table w)
                   (calls w ++ retrieval_calls E question (default 4 k))
                   (out w)).
Proof.
  intros He Hc Hr. unfold retrieve_relevant_chunks.
  erewrite run_try_raise; [reflexivity|].
  erewrite run_bind_ok; [|by apply run_external_ok].
  erewrite run_bind_ok; [|by apply run_external_ok].
  simpl. erewrite run_bind_raise; [|apply run_external_fault; simpl].
  - simpl. rewrite <- !app_assoc. reflexivity.
  - rewrite <- app_assoc. exact Hr.
Qed.

(** With an embedding provider that is down, the retrieval returns. *)
Lemma embedding_failure_not_propagated :
  ¬ embedding_failure_propagates (Scenario.failing Scenario.is_embed)
      "What is RAG?" None Scenario.one_record.
Proof.
  intros H. destruct (H (RemoteError "unavailable") eq_refl) as (e' & w' & Hrun).
  vm_compute in Hrun. discriminate Hrun.
Qed.

(** C2, as the code has it: when the embedding call on the question raises,
    [retrieve_relevant_chunks] catches the exception and returns the empty
    list; the store is not called, and [query_stream] then yields the
    fallback message only. *)
Theorem retrieve_embedding_failure_gives_empty E question k w e :
  fault E (calls w) (EmbedQuery question) = Some e →
  retrieve_relevant_chunks E question k w
  = (inr [], World (table w) (calls w ++ [EmbedQuery question]) (out w))
  ∧ query_stream E question w
    = (inr tt, World (table w) (calls w ++ [EmbedQuery question])
                     (out w ++ [fallback_message])).
Proof.
  intros Hf. split; [by eapply retrieve_embedding_failure|].
  unfold query_stream.
  erewrite run_bind_ok; [|by eapply retrieve_embedding_failure].
  reflexivity.
Qed.

Lemma retrieve_embedding_failure_gives_empty_witness :
  retrieve_relevant_chunks (Scenario.failing Scenario.is_embed)
    "What is RAG?" None Scenario.one_record
  = (inr [], World [Scenario.stored 1] [EmbedQuery "What is RAG?"] [])
  ∧ query_stream (Scenario.failing Scenario.is_embed)
      "What is RAG?" Scenario.one_record
    = (inr tt, World [Scenario.stored 1] [EmbedQuery "What is RAG?"]
                     [fallback_message]).
Proof.
  apply (retrieve_embedding_failure_gives_empty
           (Scenario.failing Scenario.is_embed) "What is RAG?" None
           Scenario.one_record (RemoteError "unavailable")).
  reflexivity.
Defined.

(** * _store_chunks *)

Lemma store_chunks_insert_failure E chunks source_file w rows w1 e :
  prepare_rows E source_file 0 chunks [] w = (inr rows, w1) →
  fault E (calls w1) (Insert rows) = Some e →
  _store_chunks E chunks source_file w
  = (inl e, World (after_failed_write E (Insert rows) (table w1))
                  (calls w1 ++ [Insert rows]) (out w1)).
Proof.
  intros Hprep Hf. unfold _store_chunks.
  erewrite run_bind_ok; [|exact Hprep].
  erewrite run_try_raise; [reflexivity|].
  by apply run_write_fault.
Qed.

(** C3: an exception raised by the store during the [match_documents] call
    is caught by [retrieve_relevant_chunks], which returns the empty list;
    an exception raised by the store during the batch insert is raised
    again by [_store_chunks]. *)
Theorem search_fails_soft_insert_fails_hard
    E question k chunks source_file w rows w1 e :
  (fault E (calls w) (EmbedQuery question) = None →
   fault E (calls w ++ [EmbedQuery question]) SelectCount = None →
   fault E (calls w ++ [EmbedQuery question; SelectCount])
         (Rpc "match_documents"
              (match_params (embed_vector E question) (default 4 k)))
     = Some e →
   retrieve_relevant_chunks E question k w
   = (inr [], World (table w)
                    (calls w ++ retrieval_calls E question (default 4 k))
                    (out w)))
  ∧ (prepare_rows E source_file 0 chunks [] w = (inr rows, w1) →
     fault E (calls w1) (Insert rows) = Some e →
     _store_chunks E chunks source_file w
     = (inl e, World (after_failed_write E (Insert rows) (table w1))
                     (calls w1 ++ [Insert rows]) (out w1))).
Proof.
  split.
  - apply retrieve_search_failure.
  - apply store_chunks_insert_failure.
Qed.

Lemma search_fails_soft_insert_fails_hard_witness :
  let E := Scenario.failing (λ c, Scenario.is_rpc c || Scenario.is_insert c) in
  let w1 := World [Scenario.stored 1]
              [EmbedQuery (page_content Scenario.chunk)] [] in
  let rows := [NewRow (page_content Scenario.chunk)
                 Scenario.ingested_metadata [float_zero]] in
  retrieve_relevant_chunks E "What is RAG?" None Scenario.one_record
  = (inr [], World [Scenario.stored 1]
                   (retrieval_calls E "What is RAG?" 4) [])
  ∧ _store_chunks E [Scenario.chunk] "uploads/a.txt" Scenario.one_record
    = (inl (RemoteError "unavailable"),
       World [Scenario.stored 1]
             [EmbedQuery (page_content Scenario.chunk); Insert rows] []).
Proof.
  intros E w1 rows.
  destruct (search_fails_soft_insert_fails_hard E "What is RAG?" None
              [Scenario.chunk] "uploads/a.txt" Scenario.one_record rows w1
              (RemoteError "unavailable")) as [Hsoft Hhard].
  split.
  - apply Hsoft; reflexivity.
  - apply Hhard; reflexivity.
Defined.

(** * The calls of a retrieval *)

Lemma run_similarity_report doc w :
  similarity_report doc w
  = (match format_f 4 (default (PStr "N/A") (doc !! "similarity")) with
     | inl e => inl e
     | inr _ => inr tt
     end, w).
Proof.
  unfold similarity_report. rewrite run_bind.
  by destruct (format_f 4 _).
Qed.

Lemma for_each_similarity_report data w :
  (scores_ok data = true → for_each data similarity_report w = (inr tt, w))
  ∧ (scores_ok data = false →
     ∃ e, for_each data similarity_report w = (inl e, w)).
Proof.
  induction data as [|doc data [IHt IHf]]; simpl.
  - split; [done|discriminate].
  - rewrite run_bind, run_similarity_report.
    destruct (format_f 4 (default (PStr "N/A") (doc !! "similarity")))
      as [e|s]; simpl.
    + split; [discriminate|]. intros _. by exists e.
    + split; [apply IHt|apply IHf].
Qed.

(** The retrieval when none of its three calls raises. *)
Lemma retrieve_no_fault E question k w :
  let cs := retrieval_calls E question (default 4 k) in
  let data := rpc_data E "match_documents" (table w)
                (match_params (embed_vector E question) (default 4 k)) in
  fault E (calls w) (EmbedQuery question) = None →
  fault E (calls w ++ [EmbedQuery question]) SelectCount = None →
  fault E (calls w ++ [EmbedQuery question; SelectCount])
        (Rpc "match_documents"
             (match_params (embed_vector E question) (default 4 k))) = None →
  retrieve_relevant_chunks E question k w
  = (inr (if scores_ok data then data else []),
     World (table w) (calls w ++ cs) (out w)).
Proof.
  intros cs data He Hc Hr. unfold retrieve_relevant_chunks.
  set (w3 := World (table w) (calls w ++ cs) (out w)).
  assert (rpc E "match_documents" (match_params (embed_vector E question) (default 4 k))
              (World (table w) ((calls w ++ [EmbedQuery question]) ++ [SelectCount]) (out w))
          = (inr data, w3)) as Hrpc.
  { unfold rpc. rewrite run_external_ok; simpl.
    - unfold w3, cs, retrieval_calls. by rewrite <- !app_assoc.
    - by rewrite <- app_assoc. }
  destruct (for_each_similarity_report data w3) as [Ht Hf].
  destruct (scores_ok data) eqn:Hok.
  - erewrite run_try_ok; [reflexivity|].
    erewrite run_bind_ok; [|by apply run_external_ok].
    erewrite run_bind_ok; [|by apply run_external_ok].
    simpl. erewrite run_bind_ok; [|exact Hrpc].
    destruct data as [|doc data']; [reflexivity|]. unfold truthy.
    erewrite run_bind_ok; [reflexivity|]. by apply Ht.
  - destruct (Hf eq_refl) as [e Hrun].
    erewrite run_try_raise; [reflexivity|].
    erewrite run_bind_ok; [|by apply run_external_ok].
    erewrite run_bind_ok; [|by apply run_external_ok].
    simpl. erewrite run_bind_ok; [|exact Hrpc].
    destruct data as [|doc data']; [discriminate Hok|]. unfold truthy.
    erewrite run_bind_raise; [reflexivity|]. exact Hrun.
Qed.

Lemma retrieve_count_failure E question k w e :
  fault E (calls w) (EmbedQuery question) = None →
  fault E (calls w ++ [EmbedQuery question]) SelectCount = Some e →
  retrieve_relevant_chunks E question k w
  = (inr [], World (table w) (calls w ++ [EmbedQuery question; SelectCount])
                   (out w)).
Proof.
  intros He Hc. unfold retrieve_relevant_chunks.
  erewrite run_try_raise; [reflexivity|].
  erewrite run_bind_ok; [|by apply run_external_ok].
  erewrite run_bind_raise; [|by apply run_external_fault].
  simpl. by rewrite <- app_assoc.
Qed.

(** What a retrieval does to the state: the table and [out] are as they
    were; the calls made are the first [n] of the three, all of them unless
    the [n]-th raised. *)
Lemma retrieve_world E question k w :
  let cs := retrieval_calls E question (default 4 k) in
  ∃ n, (1 ≤ n ≤ 3)%nat
    ∧ (retrieve_relevant_chunks E question k w).2
      = World (table w) (calls w ++ take n cs) (out w)
    ∧ (n = 3%nat
       ∨ ∃ c e, cs !! (n - 1)%nat = Some c
                ∧ fault E (calls w ++ take (n - 1)%nat cs) c = Some e
                ∧ (retrieve_relevant_chunks E question k w).1 = inr []).
Proof.
  intros cs.
  destruct (fault E (calls w) (EmbedQuery question)) as [e|] eqn:He.
  { exists 1%nat. rewrite (retrieve_embedding_failure _ _ _ _ _ He).
    split; [lia|]. split; [done|]. right. exists (EmbedQuery question), e.
    simpl. by rewrite app_nil_r. }
  destruct (fault E (calls w ++ [EmbedQuery question]) SelectCount)
    as [e|] eqn:Hc.
  { exists 2%nat. rewrite (retrieve_count_failure _ _ _ _ _ He Hc).
    split; [lia|]. split; [done|]. right. exists SelectCount, e. done. }
  destruct (fault E (calls w ++ [EmbedQuery question; SelectCount])
              (Rpc "match_documents"
                 (match_params (embed_vector E question) (default 4 k))))
    as [e|] eqn:Hr.
  { exists 3%nat. rewrite (retrieve_search_failure _ _ _ _ _ He Hc Hr).
    split; [lia|]. split; [done|]. by left. }
  exists 3%nat. rewrite (retrieve_no_fault _ _ _ _ He Hc Hr).
  split; [lia|]. split; [done|]. by left.
Qed.

(** * query_stream *)

Lemma query_stream_unfold E question w :
  query_stream E question w
  = match retrieve_relevant_chunks E question (Some 3) w with
    | (inr [], w1) => yield fallback_message w1
    | (inr docs, w1) => answer_with_sources E question docs w1
    | (inl e, w1) => (inl e, w1)
    end.
Proof.
  unfold query_stream. rewrite run_bind.
  destruct (retrieve_relevant_chunks E question (Some 3) w) as [[e|docs] w1];
    [done|].
  by destruct docs.
Qed.

Lemma query_stream_nonempty E question w docs w1 :
  retrieve_relevant_chunks E question (Some 3) w = (inr docs, w1) →
  docs ≠ [] →
  query_stream E question w = answer_with_sources E question docs w1.
Proof.
  intros Hret Hne. rewrite query_stream_unfold, Hret. by destruct docs.
Qed.

Lemma run_lift {A} (r : exn + A) w :
  lift r w = (r, w).
Proof. by destruct r. Qed.

Lemma for_each_yield frags w :
  for_each frags yield w
  = (inr tt, World (table w) (calls w) (out w ++ frags)).
Proof.
  revert w. induction frags as [|s frags IH]; intros w; simpl.
  - rewrite app_nil_r. by destruct w.
  - rewrite run_bind. simpl. rewrite IH. simpl.
    by rewrite <- app_assoc.
Qed.

Lemma quiet_lift {A} (r : exn + A) : quiet (lift r).
Proof. intros w. by rewrite run_lift. Qed.

Lemma quiet_yield s : quiet (yield s).
Proof. by intros w. Qed.

Lemma quiet_bind {A B} (m : M A) (k : A → M B) :
  quiet m → (∀ a, quiet (k a)) → quiet (m ≫= k).
Proof.
  intros Hm Hk w. rewrite run_bind. specialize (Hm w).
  destruct (m w) as [[e|a] w1]; simpl in *; [done|].
  destruct (Hk a w1) as [-> ->]. done.
Qed.

Lemma quiet_for_each {A} (xs : list A) body :
  (∀ x, quiet (body x)) → quiet (for_each xs body).
Proof.
  intros Hbody. induction xs as [|x xs IH]; simpl.
  - by intros w.
  - apply quiet_bind; [apply Hbody|done].
Qed.

Lemma quiet_source_line E entry : quiet (source_line E entry).
Proof.
  destruct entry as [i doc]. unfold source_line.
  repeat (apply quiet_bind; [apply quiet_lift|intros ?]).
  apply quiet_yield.
Qed.

Lemma answer_with_sources_calls E question docs w :
  ∃ rest, calls (answer_with_sources E question docs w).2 = calls w ++ rest
          ∧ ∀ c, c ∈ rest → ∃ inputs, c = AStream template inputs.
Proof.
  unfold answer_with_sources.
  rewrite run_bind, run_lift.
  destruct (comprehension _ docs) as [e|contents].
  { exists []. rewrite app_nil_r. split; [done|]. by intros c ?%not_elem_of_nil. }
  rewrite run_bind, run_lift.
  destruct (join _ contents) as [e|context].
  { exists []. rewrite app_nil_r. split; [done|]. by intros c ?%not_elem_of_nil. }
  set (inputs := ({[ "context" := context; "question" := question ]} : gmap string string)).
  exists [AStream template inputs]. split.
  - rewrite run_bind. unfold astream.
    pose proof (external_trace E (AStream template inputs)
                  (λ _, llm_stream E template inputs) w) as [Hc _].
    destruct (external E (AStream template inputs) _ w) as [[e|stream] w1];
      simpl in *; [done|].
    rewrite <- Hc.
    apply (quiet_bind (for_each stream.1 yield)); [apply quiet_for_each, quiet_yield|].
    intros _. apply quiet_bind.
    { destruct stream.2; by intros ?. }
    intros _. apply quiet_bind; [apply quiet_yield|].
    intros _. apply quiet_for_each, quiet_source_line.
  - intros c ->%list_elem_of_singleton. by exists inputs.
Qed.

Lemma query_stream_calls E question w :
  ∃ rest,
    calls (query_stream E question w).2
    = calls (retrieve_relevant_chunks E question (Some 3) w).2 ++ rest
    ∧ ∀ c, c ∈ rest → ∃ inputs, c = AStream template inputs.
Proof.
  rewrite query_stream_unfold.
  destruct (retrieve_relevant_chunks E question (Some 3) w) as [[e|docs] w1].
  - exists []. rewrite app_nil_r. split; [done|]. by intros c ?%not_elem_of_nil.
  - destruct docs as [|doc docs].
    + exists []. rewrite app_nil_r. split; [done|]. by intros c ?%not_elem_of_nil.
    + apply answer_with_sources_calls.
Qed.

(** C5: [retrieve_relevant_chunks] embeds the question first and then,
    after counting the rows, calls the remote procedure [match_documents]
    with the question's embedding, [match_threshold] 0.0 and [match_count]
    [k]; [k] is 4 when the caller gives none.  A call is only left out when
    an earlier one raised.  [query_stream] makes the calls of a retrieval
    with [k] = 3, all three unless one raised, in which case it calls
    nothing else; its only other call is to the chat model. *)
Theorem retrieval_embeds_then_searches E question w :
  (∀ k : option Z,
     let cs := retrieval_calls E question (default 4 k) in
     ∃ n, (1 ≤ n ≤ 3)%nat
       ∧ calls (retrieve_relevant_chunks E question k w).2
         = calls w ++ take n cs
       ∧ (n = 3%nat
          ∨ ∃ c e, cs !! (n - 1)%nat = Some c
                   ∧ fault E (calls w ++ take (n - 1)%nat cs) c = Some e))
  ∧ (let cs := retrieval_calls E question 3 in
     ∃ n rest, (1 ≤ n ≤ 3)%nat
       ∧ calls (query_stream E question w).2 = calls w ++ take n cs ++ rest
       ∧ calls (retrieve_relevant_chunks E question (Some 3) w).2
         = calls w ++ take n cs
       ∧ (n = 3%nat
          ∨ (rest = []
             ∧ ∃ c e, cs !! (n - 1)%nat = Some c
                      ∧ fault E (calls w ++ take (n - 1)%nat cs) c = Some e))
       ∧ ∀ c, c ∈ rest → ∃ inputs, c = AStream template inputs).
Proof.
  split.
  - intros k cs. destruct (retrieve_world E question k w) as (n & Hn & Hw & Hlast).
    exists n. split; [done|]. split; [by rewrite Hw|].
    destruct Hlast as [->|(c & e & Hc & Hf & _)]; [by left|].
    right. by exists c, e.
  - intros cs.
    destruct (retrieve_world E question (Some 3) w) as (n & Hn & Hw & Hlast).
    destruct Hlast as [->|(c & e & Hc & Hf & Hempty)].
    + destruct (query_stream_calls E question w) as (rest & Hcalls & Hrest).
      exists 3%nat, rest. split; [done|].
      split; [rewrite Hcalls, Hw; simpl; by rewrite <- app_assoc|].
      split; [by rewrite Hw|]. split; [by left|done].
    + exists n, []. split; [done|]. rewrite query_stream_unfold.
      destruct (retrieve_relevant_chunks E question (Some 3) w) as [r w1].
      simpl in Hempty, Hw. subst r w1. simpl.
      split; [by rewrite app_nil_r|]. split; [done|].
      split; [right; split; [done|by exists c, e]|].
      by intros c' ?%not_elem_of_nil.
Qed.

(** The calls of a retrieval that leaves [k] out, and of a streamed query,
    against a store holding one record. *)
Example retrieval_calls_default_k :
  calls (retrieve_relevant_chunks Scenario.healthy "What is RAG?" None
           Scenario.one_record).2
  = [EmbedQuery "What is RAG?"; SelectCount;
     Rpc "match_documents"
       {[ "query_embedding" := PList [PFloat (S754_zero false)];
          "match_threshold" := PFloat (S754_zero false);
          "match_count" := PInt 4 ]}].
Proof. reflexivity. Qed.

Example query_stream_calls_k3 :
  take 3 (calls (query_stream Scenario.healthy "What is RAG?"
                   Scenario.one_record).2)
  = [EmbedQuery "What is RAG?"; SelectCount;
     Rpc "match_documents"
       {[ "query_embedding" := PList [PFloat (S754_zero false)];
          "match_threshold" := PFloat (S754_zero false);
          "match_count" := PInt 3 ]}].
Proof. reflexivity. Qed.

(** C4: when the retrieval returns the empty list, [query_stream] yields the
    fallback message and nothing else, and ends normally; it calls nothing
    beyond what the retrieval called, so the chat model is not called, and
    the sources section is not yielded. *)
Theorem empty_retrieval_gives_fallback_only E question w :
  (retrieve_relevant_chunks E question (Some 3) w).1 = inr [] →
  ∃ w', query_stream E question w = (inr tt, w')
        ∧ out w' = out w ++ [fallback_message]
        ∧ table w' = table w
        ∧ ∃ new, calls w' = calls w ++ new
                 ∧ calls w' = calls (retrieve_relevant_chunks E question (Some 3) w).2
                 ∧ ∀ t inputs, AStream t inputs ∉ new.
Proof.
  intros Hempty.
  destruct (retrieve_world E question (Some 3) w) as (n & Hn & Hw & _).
  rewrite query_stream_unfold.
  destruct (retrieve_relevant_chunks E question (Some 3) w) as [r w1].
  simpl in Hempty, Hw. subst r w1.
  eexists. split; [reflexivity|]. simpl. split; [done|]. split; [done|].
  eexists. split; [reflexivity|]. split; [done|].
  intros t inputs Hin%subseteq_take.
  unfold retrieval_calls in Hin.
  repeat (apply elem_of_cons in Hin as [Heq|Hin]; [discriminate Heq|]).
  by apply not_elem_of_nil in Hin.
Qed.

Lemma empty_retrieval_gives_fallback_only_witness :
  ∃ w', query_stream Scenario.healthy "What is RAG?" Scenario.empty_store
        = (inr tt, w')
        ∧ out w' = [fallback_message]
        ∧ table w' = []
        ∧ ∃ new, calls w' = new
                 ∧ calls w' = retrieval_calls Scenario.healthy "What is RAG?" 3
                 ∧ ∀ t inputs, AStream t inputs ∉ new.
Proof.
  apply (empty_retrieval_gives_fallback_only Scenario.healthy "What is RAG?"
           Scenario.empty_store).
  reflexivity.
Defined.

(** * The attribution section *)

Lemma comprehension_contents E docs views :
  Forall2 (describes E) docs views →
  comprehension (λ doc : dict, subscript (PDict doc) "content") docs
  = inr (PStr ∘ mv_content <$> views).
Proof.
  induction 1 as [|doc v docs views (Hc & _ & _) _ IH]; [done|].
  cbn [comprehension subscript] in IH |- *. by rewrite Hc, IH.
Qed.

Lemma str_items_strings (ss : list string) :
  str_items (PStr <$> ss) = inr ss.
Proof.
  induction ss as [|s ss IH]; [done|].
  cbn [fmap list_fmap str_items] in IH |- *. by rewrite IH.
Qed.

Lemma join_strings sep (ss : list string) :
  join sep (PStr <$> ss) = inr (String.concat sep ss).
Proof. unfold join. by rewrite str_items_strings. Qed.

Lemma run_source_line E i doc v w :
  describes E doc v →
  source_line E (i, doc) w
  = (inr tt, World (table w) (calls w) (out w ++ [attribution_line E i v])).
Proof.
  intros (_ & (text & md & Htext & Hmd & Hsrc & Hpage) & (sim & Hsim & Hscore)).
  unfold source_line, attribution_line, yield.
  rewrite run_bind, run_lift. cbn [subscript]. rewrite Htext.
  rewrite run_bind, run_lift. cbn [loads]. rewrite Hmd.
  rewrite run_bind, run_lift. cbn [subscript]. rewrite Hsrc.
  rewrite run_bind, run_lift. cbn [get_method].
  rewrite run_bind, run_lift, Hsim. cbn [default id]. rewrite Hscore, Hpage.
  by destruct (mv_page v).
Qed.

Lemma for_each_source_line E docs views : ∀ i w,
  Forall2 (describes E) docs views →
  for_each (enumerate i docs) (source_line E) w
  = (inr tt,
     World (table w) (calls w)
           (out w ++ imap (λ j v, attribution_line E (i + j) v) views)).
Proof.
  intros i w H. revert i w.
  induction H as [|doc v docs views Hd _ IH]; intros i w;
    cbn [enumerate for_each].
  - simpl. rewrite app_nil_r. by destruct w.
  - rewrite run_bind, (run_source_line E i doc v w Hd).
    rewrite IH. simpl. rewrite <- app_assoc. simpl.
    rewrite Nat.add_0_r. do 4 f_equal.
    apply imap_ext. intros j x _. simpl. f_equal. lia.
Qed.

(** C6: when the retrieval gives a non-empty list of matches and the
    model's stream runs to its end, [query_stream] gives the model the
    contents of the matches joined by a blank line, in retrieval order,
    yields the model's fragments, and only then the sources heading and one
    line per match, in retrieval order, with the match's source, its page
    (N/A when the metadata has no page) and its similarity in two
    decimals. *)
Theorem answer_then_sources E question w docs w1 views frags :
  retrieve_relevant_chunks E question (Some 3) w = (inr docs, w1) →
  docs ≠ [] →
  Forall2 (describes E) docs views →
  let inputs : gmap string string :=
    {[ "context" := context_of views; "question" := question ]} in
  fault E (calls w1) (AStream template inputs) = None →
  llm_stream E template inputs = (frags, None) →
  query_stream E question w
  = (inr tt,
     World (table w) (calls w1 ++ [AStream template inputs])
           (out w ++ frags ++ sources_header ::
              imap (λ j v, attribution_line E (S j) v) views)).
Proof.
  intros Hret Hne Hviews inputs Hfault Hstream.
  destruct (retrieve_world E question (Some 3) w) as (n & _ & Hw & _).
  rewrite Hret in Hw. simpl in Hw.
  replace (table w) with (table w1) by (by rewrite Hw).
  replace (out w) with (out w1) by (by rewrite Hw).
  clear n Hw.
  rewrite (query_stream_nonempty E question w docs w1 Hret Hne).
  unfold answer_with_sources.
  rewrite run_bind, run_lift, (comprehension_contents E docs views Hviews).
  rewrite run_bind, run_lift, list_fmap_compose, join_strings.
  fold (context_of views). fold inputs.
  erewrite run_bind_ok; [|unfold astream; by apply run_external_ok].
  simpl. rewrite Hstream. simpl.
  rewrite run_bind, for_each_yield. simpl.
  rewrite run_bind. cbn [mret M_ret ret].
  rewrite run_bind. unfold yield at 1.
  rewrite (for_each_source_line E docs views 1 _ Hviews). simpl.
  by rewrite <- !app_assoc.
Qed.

Lemma answer_then_sources_witness :
  query_stream Scenario.healthy "What is RAG?" Scenario.two_records
  = (inr tt,
     World [Scenario.stored 1; Scenario.legacy 2]
       (retrieval_calls Scenario.healthy "What is RAG?" 3 ++
        [AStream template
           {[ "context" :=
                "RAG stands for Retrieval-Augmented Generation." +:+ NL +:+
                NL +:+ "Notes on retrieval.";
              "question" := "What is RAG?" ]}])
       ["RAG is "; "retrieval."; sources_header;
        NL +:+ "1. uploads/a.txt (page 0, similarity: 0.88)";
        NL +:+ "2. notes.txt (page N/A, similarity: 0.88)"]).
Proof.
  apply (answer_then_sources Scenario.healthy "What is RAG?"
           Scenario.two_records
           [Scenario.match_of (Scenario.stored 1);
            Scenario.match_of (Scenario.legacy 2)]
           (World [Scenario.stored 1; Scenario.legacy 2]
              (retrieval_calls Scenario.healthy "What is RAG?" 3) [])
           [MatchView "RAG stands for Retrieval-Augmented Generation."
              (PStr "uploads/a.txt") (Some (PInt 0)) "0.88";
            MatchView "Notes on retrieval." (PStr "notes.txt") None "0.88"]
           ["RAG is "; "retrieval."]).
  - reflexivity.
  - discriminate.
  - repeat constructor.
    + eexists _, _. repeat split; reflexivity.
    + eexists. split; reflexivity.
    + eexists _, _. repeat split; reflexivity.
    + eexists. split; reflexivity.
  - reflexivity.
  - reflexivity.
Defined.

(** Outside the data model: a match whose metadata is not JSON makes the
    generator raise at that match's line, after the answer and the
    heading. *)
Example attribution_stops_at_damaged_metadata :
  let run := query_stream Scenario.healthy "What is RAG?"
               (World [Scenario.stored 1; Scenario.damaged 2] [] []) in
  run.1 = inl (ValueError "Expecting value")
  ∧ out run.2
    = ["RAG is "; "retrieval."; sources_header;
       NL +:+ "1. uploads/a.txt (page 0, similarity: 0.88)"].
Proof. split; reflexivity. Qed.

(** The precision plays no part in whether [format_f] accepts a value. *)
Lemma format_f_accepts p q v s :
  format_f p v = inr s → ∃ s', format_f q v = inr s'.
Proof.
  destruct v as [| b | z | f | | |]; simpl; try discriminate; eauto.
  destruct (float_of_int z); [discriminate|eauto].
Qed.

Lemma scores_ok_Forall data :
  scores_ok data = true →
  Forall (λ doc : dict, ∃ similarity s,
            doc !! "similarity" = Some similarity
            ∧ format_f 2 similarity = inr s) data.
Proof.
  unfold scores_ok. rewrite forallb_forall. intros H.
  apply Forall_forall. intros doc Hin%list_elem_of_In. specialize (H doc Hin).
  destruct (doc !! "similarity") as [sim|] eqn:Hsim; simpl in H; [|done].
  destruct (format_f 4 sim) as [|s] eqn:Hfmt; [done|].
  destruct (format_f_accepts 4 2 sim s Hfmt) as [s' Hs'].
  by exists sim, s'.
Qed.

(** Every row that [retrieve_relevant_chunks] returns has a similarity that
    [query_stream] can print: a row without one makes line 139 raise, and
    the retrieval then returns the empty list. *)
Lemma retrieved_rows_have_scores E question k w docs w1 :
  retrieve_relevant_chunks E question k w = (inr docs, w1) →
  Forall (λ doc : dict, ∃ similarity s,
            doc !! "similarity" = Some similarity
            ∧ format_f 2 similarity = inr s) docs.
Proof.
  intros Hret.
  destruct (fault E (calls w) (EmbedQuery question)) as [e|] eqn:He.
  { rewrite (retrieve_embedding_failure _ _ _ _ _ He) in Hret.
    injection Hret as <- _. constructor. }
  destruct (fault E (calls w ++ [EmbedQuery question]) SelectCount)
    as [e|] eqn:Hc.
  { rewrite (retrieve_count_failure _ _ _ _ _ He Hc) in Hret.
    injection Hret as <- _. constructor. }
  destruct (fault E (calls w ++ [EmbedQuery question; SelectCount])
              (Rpc "match_documents"
                 (match_params (embed_vector E question) (default 4 k))))
    as [e|] eqn:Hr.
  { rewrite (retrieve_search_failure _ _ _ _ _ He Hc Hr) in Hret.
    injection Hret as <- _. constructor. }
  rewrite (retrieve_no_fault _ _ _ _ He Hc Hr) in Hret.
  injection Hret as <- _.
  destruct (scores_ok _) eqn:Hok; [by apply scores_ok_Forall|constructor].
Qed.

(** * Ingestion *)

(** The loop of [_store_chunks] either embeds every chunk and gives one row
    per chunk, or stops at the first embedding that raises; it never touches
    the table. *)
Lemma prepare_rows_cases E source_file chunks : ∀ i insert_data w,
  prepare_rows E source_file i chunks insert_data w
  = (inr (insert_data ++ imap (λ j chunk, row_of E source_file (i + j) chunk) chunks),
     World (table w) (calls w ++ embed_calls chunks) (out w))
  ∨ ∃ n e, (n < length chunks)%nat
           ∧ prepare_rows E source_file i chunks insert_data w
             = (inl e, World (table w)
                             (calls w ++ take (S n) (embed_calls chunks))
                             (out w)).
Proof.
  induction chunks as [|chunk chunks IH]; intros i insert_data w.
  - left. simpl. rewrite !app_nil_r. by destruct w.
  - cbn [prepare_rows]. unfold embed_query.
    destruct (fault E (calls w) (EmbedQuery (page_content chunk))) as [e|] eqn:Hf.
    + right. exists 0%nat, e. split; [simpl; lia|].
      erewrite run_bind_raise; [|by apply run_external_fault]. done.
    + erewrite run_bind_ok; [|by apply run_external_ok]. simpl.
      match goal with |- context [prepare_rows _ _ _ _ ?acc ?w'] =>
        destruct (IH (S i) acc w') as [Hok|(n & e & Hn & Hfail)] end.
      * left. rewrite Hok. simpl. rewrite <- !app_assoc. simpl.
        rewrite Nat.add_0_r. do 4 f_equal.
        apply imap_ext. intros j x _. simpl. f_equal. lia.
      * right. exists (S n), e. split; [simpl; lia|].
        rewrite Hfail. simpl. by rewrite <- !app_assoc.
Qed.

Lemma prepare_rows_fault E source_file chunks : ∀ i insert_data w n chunk e,
  chunks !! n = Some chunk →
  (∀ j c, (j < n)%nat → chunks !! j = Some c →
          fault E (calls w ++ take j (embed_calls chunks))
                (EmbedQuery (page_content c)) = None) →
  fault E (calls w ++ take n (embed_calls chunks))
        (EmbedQuery (page_content chunk)) = Some e →
  prepare_rows E source_file i chunks insert_data w
  = (inl e, World (table w) (calls w ++ take (S n) (embed_calls chunks))
                  (out w)).
Proof.
  induction chunks as [|c0 chunks IH]; intros i insert_data w n chunk e Hn Hpre Hf.
  - done.
  - cbn [prepare_rows]. unfold embed_query. destruct n as [|n].
    + injection Hn as ->. simpl in Hf. rewrite app_nil_r in Hf.
      erewrite run_bind_raise; [|by apply run_external_fault]. done.
    + assert (fault E (calls w) (EmbedQuery (page_content c0)) = None) as H0.
      { specialize (Hpre 0%nat c0 ltac:(lia) eq_refl). simpl in Hpre.
        by rewrite app_nil_r in Hpre. }
      erewrite run_bind_ok; [|by apply run_external_ok]. simpl.
      erewrite (IH _ _ _ n chunk e Hn).
      * simpl. by rewrite <- !app_assoc.
      * intros j c Hj Hc. simpl. rewrite <- app_assoc.
        apply (Hpre (S j) c); [lia|done].
      * simpl. rewrite <- app_assoc. exact Hf.
Qed.

(** The calls of [_store_chunks]: all the embeddings and then the insert,
    or the embeddings up to one that raised. *)
Lemma store_chunks_calls E chunks source_file w :
  (∃ rows, rows = imap (λ j chunk, row_of E source_file j chunk) chunks
           ∧ calls (_store_chunks E chunks source_file w).2
             = calls w ++ embed_calls chunks ++ [Insert rows])
  ∨ (∃ n, (n < length chunks)%nat
          ∧ calls (_store_chunks E chunks source_file w).2
            = calls w ++ take (S n) (embed_calls chunks)).
Proof.
  unfold _store_chunks. rewrite run_bind.
  destruct (prepare_rows_cases E source_file chunks 0 [] w)
    as [Hok|(n & e & Hn & Hfail)].
  - left. rewrite Hok. simpl app. eexists. split; [reflexivity|].
    unfold try_except, insert.
    match goal with |- context [external_write E ?c ?a ?w'] =>
      pose proof (write_trace E c a w') as [Hc _];
      destruct (external_write E c a w') as [[e|[]] w2] end;
      simpl in *; rewrite Hc; by rewrite <- app_assoc.
  - right. exists n. by rewrite Hfail.
Qed.

(** Either no embedding of the chunks raises, or there is a first one that
    does. *)
Lemma first_embedding_fault E chunks : ∀ h,
  (∀ j c, chunks !! j = Some c →
          fault E (h ++ take j (embed_calls chunks))
                (EmbedQuery (page_content c)) = None)
  ∨ ∃ n chunk e,
      chunks !! n = Some chunk
      ∧ (∀ j c, (j < n)%nat → chunks !! j = Some c →
                fault E (h ++ take j (embed_calls chunks))
                      (EmbedQuery (page_content c)) = None)
      ∧ fault E (h ++ take n (embed_calls chunks))
              (EmbedQuery (page_content chunk)) = Some e.
Proof.
  induction chunks as [|c0 chunks IH]; intros h.
  - left. intros j c Hc. by rewrite lookup_nil in Hc.
  - destruct (fault E h (EmbedQuery (page_content c0))) as [e|] eqn:H0.
    + right. exists 0%nat, c0, e. split; [done|].
      split; [intros; lia|]. simpl. by rewrite app_nil_r.
    + destruct (IH (h ++ [EmbedQuery (page_content c0)]))
        as [Hall|(n & chunk & e & Hn & Hpre & Hf)].
      * left. intros [|j] c Hc; simpl in *.
        { injection Hc as <-. by rewrite app_nil_r. }
        specialize (Hall j c Hc). by rewrite <- app_assoc in Hall.
      * right. exists (S n), chunk, e. split; [done|]. split.
        { intros [|j] c Hj Hc; simpl in *.
          - injection Hc as <-. by rewrite app_nil_r.
          - specialize (Hpre j c ltac:(lia) Hc).
            by rewrite <- app_assoc in Hpre. }
        simpl. by rewrite <- app_assoc in Hf.
Qed.

Lemma prepare_rows_ok E source_file chunks : ∀ i insert_data w,
  (∀ j c, chunks !! j = Some c →
          fault E (calls w ++ take j (embed_calls chunks))
                (EmbedQuery (page_content c)) = None) →
  prepare_rows E source_file i chunks insert_data w
  = (inr (insert_data ++ imap (λ j chunk, row_of E source_file (i + j) chunk) chunks),
     World (table w) (calls w ++ embed_calls chunks) (out w)).
Proof.
  induction chunks as [|chunk chunks IH]; intros i insert_data w Hok.
  - simpl. rewrite !app_nil_r. by destruct w.
  - cbn [prepare_rows]. unfold embed_query.
    assert (fault E (calls w) (EmbedQuery (page_content chunk)) = None) as H0.
    { specialize (Hok 0%nat chunk eq_refl). simpl in Hok.
      by rewrite app_nil_r in Hok. }
    erewrite run_bind_ok; [|by apply run_external_ok]. simpl.
    rewrite IH.
    + simpl. rewrite <- !app_assoc. simpl.
      rewrite Nat.add_0_r. do 4 f_equal.
      apply imap_ext. intros j x _. simpl. f_equal. lia.
    + intros j c Hc. simpl. rewrite <- app_assoc. by apply (Hok (S j) c).
Qed.

(** C9: [_store_chunks] computes the embedding of every chunk before it
    issues its one insert: when no embedding raises, its calls are the
    embeddings of all the chunks, in order, followed by one insert of the
    prepared rows; otherwise the embedding of some chunk raised, and then
    [_store_chunks] raises that exception, the table is as it was, and the
    calls made are the embeddings up to the failing one, with no insert. *)
Theorem embeddings_before_single_insert E chunks source_file w :
  (((∀ j c, chunks !! j = Some c →
            fault E (calls w ++ take j (embed_calls chunks))
                  (EmbedQuery (page_content c)) = None)
    ∧ calls (_store_chunks E chunks source_file w).2
      = calls w ++ embed_calls chunks ++
          [Insert (imap (λ j chunk, row_of E source_file j chunk) chunks)])
   ∨ (∃ n chunk e,
        chunks !! n = Some chunk
        ∧ fault E (calls w ++ take n (embed_calls chunks))
                (EmbedQuery (page_content chunk)) = Some e
        ∧ _store_chunks E chunks source_file w
          = (inl e, World (table w)
                          (calls w ++ take (S n) (embed_calls chunks))
                          (out w))))
  ∧ (∀ n chunk e,
       chunks !! n = Some chunk →
       (∀ j c, (j < n)%nat → chunks !! j = Some c →
               fault E (calls w ++ take j (embed_calls chunks))
                     (EmbedQuery (page_content c)) = None) →
       fault E (calls w ++ take n (embed_calls chunks))
             (EmbedQuery (page_content chunk)) = Some e →
       _store_chunks E chunks source_file w
       = (inl e, World (table w)
                       (calls w ++ take (S n) (embed_calls chunks))
                       (out w))).
Proof.
  assert (∀ n chunk e,
            chunks !! n = Some chunk →
            (∀ j c, (j < n)%nat → chunks !! j = Some c →
                    fault E (calls w ++ take j (embed_calls chunks))
                          (EmbedQuery (page_content c)) = None) →
            fault E (calls w ++ take n (embed_calls chunks))
                  (EmbedQuery (page_content chunk)) = Some e →
            _store_chunks E chunks source_file w
            = (inl e, World (table w)
                            (calls w ++ take (S n) (embed_calls chunks))
                            (out w))) as Hfail.
  { intros n chunk e Hn Hpre Hf. unfold _store_chunks.
    erewrite run_bind_raise; [reflexivity|].
    by eapply prepare_rows_fault. }
  split; [|exact Hfail].
  destruct (first_embedding_fault E chunks (calls w))
    as [Hall|(n & chunk & e & Hn & Hpre & Hf)].
  - left. split; [done|]. unfold _store_chunks.
    erewrite run_bind_ok; [|by apply prepare_rows_ok].
    unfold try_except, insert. simpl app.
    match goal with |- context [external_write E ?c ?a ?w'] =>
      pose proof (write_trace E c a w') as [Ht _];
      destruct (external_write E c a w') as [[e|[]] w2] end;
      simpl in *; rewrite Ht; by rewrite <- app_assoc.
  - right. exists n, chunk, e. split; [done|]. split; [done|].
    by apply (Hfail n chunk e).
Qed.

Lemma embeddings_before_single_insert_witness :
  let E := Scenario.failing Scenario.second_chunk_embedding in
  _store_chunks E Scenario.two_chunks "uploads/a.txt" Scenario.one_record
  = (inl (RemoteError "unavailable"),
     World [Scenario.stored 1]
           [EmbedQuery "first chunk"; EmbedQuery "second chunk"] []).
Proof.
  intros E.
  apply (proj2 (embeddings_before_single_insert E Scenario.two_chunks
                  "uploads/a.txt" Scenario.one_record)
           1%nat (Document "second chunk" {[ "page" := PInt 7 ]})
           (RemoteError "unavailable")).
  - reflexivity.
  - intros j c Hj Hc. destruct j as [|j]; [|lia].
    injection Hc as <-. reflexivity.
  - reflexivity.
Defined.

Lemma chunk_metadata_keys source_file i chunk :
  dom (chunk_metadata source_file i chunk)
  = ({[ "source"; "chunk_index"; "page" ]} : gset string).
Proof.
  unfold chunk_metadata. rewrite !dom_insert_L, dom_singleton_L. set_solver.
Qed.

(** C10: every row that [_store_chunks] sends to the store has, for the
    chunk at the same position, that chunk's text as content and as metadata
    the JSON text of a dict whose keys are exactly source, chunk_index and
    page: the source is the file, the chunk_index is the chunk's position
    counted from 0, and the page is the chunk's page, or 0 when the chunk's
    metadata has none.  So the page key is always there. *)
Theorem inserted_metadata_has_three_keys E chunks source_file w rows :
  calls (_store_chunks E chunks source_file w).2
  = calls w ++ embed_calls chunks ++ [Insert rows] →
  length rows = length chunks
  ∧ ∀ i chunk row,
      chunks !! i = Some chunk → rows !! i = Some row →
      nr_content row = page_content chunk
      ∧ ∃ md : dict,
          nr_metadata row = json_dumps E (PDict md)
          ∧ dom md = ({[ "source"; "chunk_index"; "page" ]} : gset string)
          ∧ md !! "source" = Some (PStr source_file)
          ∧ md !! "chunk_index" = Some (PInt (Z.of_nat i))
          ∧ md !! "page" = Some (default (PInt 0) (metadata chunk !! "page")).
Proof.
  intros Hcalls.
  assert (rows = imap (λ j chunk, row_of E source_file j chunk) chunks) as ->.
  { destruct (store_chunks_calls E chunks source_file w)
      as [(rows' & -> & Hc)|(n & Hn & Hc)]; rewrite Hc in Hcalls.
    - apply app_inv_head, app_inv_head in Hcalls. by injection Hcalls.
    - apply app_inv_head in Hcalls. apply (f_equal length) in Hcalls.
      rewrite length_take, length_app in Hcalls.
      unfold embed_calls in Hcalls. rewrite length_fmap in Hcalls.
      cbn [length] in Hcalls. lia. }
  split; [by rewrite length_imap|].
  intros i chunk row Hchunk Hrow.
  rewrite list_lookup_imap, Hchunk in Hrow. injection Hrow as <-.
  split; [done|]. exists (chunk_metadata source_file i chunk).
  split; [done|]. split; [apply chunk_metadata_keys|].
  unfold chunk_metadata. by simplify_map_eq.
Qed.

Lemma inserted_metadata_has_three_keys_witness :
  let rows := [NewRow "RAG stands for Retrieval-Augmented Generation."
                 Scenario.ingested_metadata [float_zero]] in
  length rows = 1%nat
  ∧ ∀ i chunk row,
      [Scenario.chunk] !! i = Some chunk → rows !! i = Some row →
      nr_content row = page_content chunk
      ∧ ∃ md : dict,
          nr_metadata row = json_dumps Scenario.healthy (PDict md)
          ∧ dom md = ({[ "source"; "chunk_index"; "page" ]} : gset string)
          ∧ md !! "source" = Some (PStr "uploads/a.txt")
          ∧ md !! "chunk_index" = Some (PInt (Z.of_nat i))
          ∧ md !! "page" = Some (default (PInt 0) (metadata chunk !! "page")).
Proof.
  intros rows.
  apply (inserted_metadata_has_three_keys Scenario.healthy [Scenario.chunk]
           "uploads/a.txt" Scenario.empty_store rows).
  reflexivity.
Defined.


(** * Further properties of the ingestion path *)

(** What a successful insert appends: one record per row, in order, with
    the row's columns and an id chosen by the store. *)
Lemma store_rows_app E rows : ∀ t,
  ∃ new, store_rows E t rows = t ++ new
         ∧ rec_content <$> new = nr_content <$> rows
         ∧ rec_metadata <$> new = nr_metadata <$> rows
         ∧ rec_embedding <$> new = nr_embedding <$> rows
         ∧ Forall (λ r, ∃ t', rec_id r = fresh_id E t') new.
Proof.
  induction rows as [|row rows IH]; intros t; cbn [store_rows].
  - exists []. rewrite app_nil_r. repeat split; constructor.
  - destruct (IH (t ++ [Record_ (fresh_id E t) (nr_content row)
                          (nr_metadata row) (nr_embedding row)]))
      as (new & Heq & Hc & Hm & He & Hid).
    eexists (_ :: new). rewrite Heq, <- app_assoc. split; [reflexivity|].
    cbn [fmap list_fmap] in *. rewrite Hc, Hm, He.
    repeat split. constructor; [by exists t|done].
Qed.

Lemma prepare_rows_no_fault E source_file chunks : ∀ i insert_data w,
  (∀ h text, fault E h (EmbedQuery text) = None) →
  prepare_rows E source_file i chunks insert_data w
  = (inr (insert_data ++ imap (λ j chunk, row_of E source_file (i + j) chunk) chunks),
     World (table w) (calls w ++ embed_calls chunks) (out w)).
Proof.
  induction chunks as [|chunk chunks IH]; intros i insert_data w Hok.
  - simpl. rewrite !app_nil_r. by destruct w.
  - cbn [prepare_rows]. unfold embed_query.
    erewrite run_bind_ok; [|by apply run_external_ok]. simpl.
    rewrite IH by done. simpl. rewrite <- !app_assoc. simpl.
    rewrite Nat.add_0_r. do 4 f_equal.
    apply imap_ext. intros j x _. simpl. f_equal. lia.
Qed.

Lemma store_chunks_no_fault E chunks source_file w :
  let rows := imap (λ j chunk, row_of E source_file j chunk) chunks in
  (∀ h text, fault E h (EmbedQuery text) = None) →
  fault E (calls w ++ embed_calls chunks) (Insert rows) = None →
  _store_chunks E chunks source_file w
  = (inr tt, World (store_rows E (table w) rows)
                   (calls w ++ embed_calls chunks ++ [Insert rows]) (out w)).
Proof.
  intros rows Hembed Hinsert. unfold _store_chunks.
  erewrite run_bind_ok; [|by apply prepare_rows_no_fault].
  erewrite run_try_ok; [reflexivity|]. unfold insert.
  rewrite run_write_ok by done. simpl. by rewrite <- app_assoc.
Qed.

Lemma row_of_contents E source_file chunks :
  nr_content <$> imap (λ j chunk, row_of E source_file j chunk) chunks
  = page_content <$> chunks.
Proof.
  rewrite fmap_imap, <- (imap_const page_content chunks). by apply imap_ext.
Qed.


(** X1: when no embedding raises and the insert does not raise,
    [_store_chunks] issues one embedding call per chunk and then exactly one
    insert, also for an empty list of chunks, and the table gains one record
    per chunk, in chunk order, each with its chunk's text as content. *)
Theorem store_chunks_appends_in_order E chunks source_file w :
  let rows := imap (λ j chunk, row_of E source_file j chunk) chunks in
  (∀ h text, fault E h (EmbedQuery text) = None) →
  fault E (calls w ++ embed_calls chunks) (Insert rows) = None →
  ∃ new,
    _store_chunks E chunks source_file w
    = (inr tt, World (table w ++ new)
                     (calls w ++ embed_calls chunks ++ [Insert rows]) (out w))
    ∧ length new = length chunks
    ∧ rec_content <$> new = page_content <$> chunks.
Proof.
  intros rows Hembed Hinsert.
  destruct (store_rows_app E rows (table w)) as (new & Hnew & Hc & _).
  exists new. split; [|split].
  - rewrite (store_chunks_no_fault E chunks source_file w Hembed Hinsert).
    fold rows. by rewrite Hnew.
  - apply (f_equal length) in Hc. rewrite !length_fmap in Hc.
    rewrite Hc. unfold rows. by rewrite length_imap.
  - rewrite Hc. apply row_of_contents.
Qed.

Lemma store_chunks_appends_in_order_witness :
  ∃ new,
    _store_chunks Scenario.healthy Scenario.two_chunks "uploads/a.txt"
      Scenario.one_record
    = (inr tt,
       World ([Scenario.stored 1] ++ new)
         ([EmbedQuery "first chunk"; EmbedQuery "second chunk";
           Insert [NewRow "first chunk" Scenario.ingested_metadata [float_zero];
                   NewRow "second chunk" Scenario.ingested_metadata
                     [float_zero]]]) [])
    ∧ length new = 2%nat
    ∧ rec_content <$> new = ["first chunk"; "second chunk"].
Proof.
  apply (store_chunks_appends_in_order Scenario.healthy Scenario.two_chunks
           "uploads/a.txt" Scenario.one_record); reflexivity.
Defined.

(** The loader chosen for a path decides how [load_and_process_document]
    starts. *)
Lemma load_and_process_unfold E file_path w :
  load_and_process_document E file_path w
  = match loader_for file_path with
    | None => (inl (ValueError "Unsupported file type"), w)
    | Some loader =>
        (documents ← external E (LoadFile loader file_path)
                       (λ _, read_file E loader file_path);
         chunks ← lift (text_splitter E 1000 200 separators documents);
         _store_chunks E chunks file_path;;
         mret (length chunks)) w
    end.
Proof.
  unfold load_and_process_document, loader_for.
  destruct (endswith file_path ".pdf"); [done|].
  by destruct (endswith file_path ".txt").
Qed.

(** X2: a path that ends neither in .pdf nor in .txt makes
    [load_and_process_document] raise ValueError before anything is read,
    embedded or stored: the state is untouched. *)
Theorem ingestion_rejects_other_extensions E file_path w :
  endswith file_path ".pdf" = false →
  endswith file_path ".txt" = false →
  load_and_process_document E file_path w
  = (inl (ValueError "Unsupported file type"), w).
Proof.
  intros Hpdf Htxt. rewrite load_and_process_unfold.
  unfold loader_for. by rewrite Hpdf, Htxt.
Qed.

Lemma ingestion_rejects_other_extensions_witness :
  load_and_process_document Scenario.healthy "uploads/notes.PDF"
    Scenario.one_record
  = (inl (ValueError "Unsupported file type"), Scenario.one_record).
Proof.
  apply (ingestion_rejects_other_extensions Scenario.healthy
           "uploads/notes.PDF" Scenario.one_record); reflexivity.
Defined.



(** The three ways a run of [_store_chunks] can end: the insert went
    through, the insert raised, or an embedding raised before it. *)
Lemma store_chunks_runs E chunks source_file w :
  let rows := imap (λ j chunk, row_of E source_file j chunk) chunks in
  _store_chunks E chunks source_file w
  = (inr tt, World (store_rows E (table w) rows)
                   (calls w ++ embed_calls chunks ++ [Insert rows]) (out w))
  ∨ (∃ e, _store_chunks E chunks source_file w
          = (inl e, World (after_failed_write E (Insert rows) (table w))
                          (calls w ++ embed_calls chunks ++ [Insert rows])
                          (out w)))
  ∨ (∃ n e, _store_chunks E chunks source_file w
            = (inl e, World (table w)
                            (calls w ++ take (S n) (embed_calls chunks))
                            (out w))).
Proof.
  intros rows.
  destruct (prepare_rows_cases E source_file chunks 0 [] w)
    as [Hok|(n & e & _ & Hfail)].
  - simpl app in Hok. fold rows in Hok. unfold _store_chunks.
    rewrite (run_bind_ok _ _ _ _ _ Hok). unfold insert.
    destruct (fault E (calls w ++ embed_calls chunks) (Insert rows))
      as [e|] eqn:Hf.
    + right. left. exists e.
      erewrite run_try_raise; [|by apply run_write_fault].
      simpl. by rewrite <- app_assoc.
    + left. erewrite run_try_ok; [|by apply run_write_ok].
      simpl. by rewrite <- app_assoc.
  - right. right. exists n, e. unfold _store_chunks.
    by erewrite run_bind_raise.
Qed.

Lemma embed_calls_are_embeddings chunks c :
  c ∈ embed_calls chunks → ∃ text, c = EmbedQuery text.
Proof.
  unfold embed_calls. intros (chunk & -> & _)%list_elem_of_fmap. eauto.
Qed.

(** X4: [load_and_process_document] writes to the table through its one
    insert call only, which comes last.  Either its calls are the load, the
    embeddings of the chunks and then the insert, and the table is what that
    insert made of the table as it was at the start; or it makes no insert
    call (an unsupported type, a loader, splitter or embedding failure): then
    it raises, its calls are loads and embeddings only, and the table and
    the output are as they were. *)
Theorem ingestion_writes_only_by_insert E file_path w :
  let run := load_and_process_document E file_path w in
  (∃ loader chunks rows,
     calls run.2
     = calls w ++ LoadFile loader file_path :: embed_calls chunks ++
         [Insert rows]
     ∧ out run.2 = out w
     ∧ ((run.1 = inr (length chunks)
         ∧ table run.2 = store_rows E (table w) rows)
        ∨ (∃ e, run.1 = inl e
                ∧ table run.2
                  = after_failed_write E (Insert rows) (table w))))
  ∨ (∃ e pre, run.1 = inl e
              ∧ table run.2 = table w ∧ out run.2 = out w
              ∧ calls run.2 = calls w ++ pre
              ∧ ∀ c, c ∈ pre →
                     c = LoadFile (default "" (loader_for file_path)) file_path
                     ∨ ∃ text, c = EmbedQuery text).
Proof.
  intros run. unfold run. clear run. rewrite load_and_process_unfold.
  destruct (loader_for file_path) as [loader|].
  2: { right. exists (ValueError "Unsupported file type"), [].
       rewrite app_nil_r. repeat split. by intros c ?%not_elem_of_nil. }
  set (load := LoadFile loader file_path). simpl default.
  assert (∀ c, c ∈ [load] → c = load ∨ ∃ text, c = EmbedQuery text) as Hload.
  { intros c ->%list_elem_of_singleton. by left. }
  destruct (fault E (calls w) load) as [e|] eqn:Hf.
  { erewrite run_bind_raise; [|by apply run_external_fault].
    right. exists e, [load]. by repeat split. }
  erewrite run_bind_ok; [|by apply run_external_ok].
  rewrite run_bind, run_lift.
  destruct (text_splitter E 1000 200 separators _) as [e|chunks].
  { right. exists e, [load]. by repeat split. }
  rewrite run_bind.
  match goal with |- context [_store_chunks E chunks file_path ?w1] =>
    destruct (store_chunks_runs E chunks file_path w1)
      as [Hrun|[(e & Hrun)|(n & e & Hrun)]]; rewrite Hrun end; simpl.
  - left. eexists loader, chunks, _. split; [by rewrite <- app_assoc|].
    split; [done|]. left. by split.
  - left. eexists loader, chunks, _. split; [by rewrite <- app_assoc|].
    split; [done|]. right. by exists e.
  - right. exists e, (load :: take (S n) (embed_calls chunks)).
    repeat split; [by rewrite <- app_assoc|].
    intros c [->|Hin%subseteq_take]%elem_of_cons; [by left|].
    right. by apply (embed_calls_are_embeddings chunks).
Qed.

(** * Further properties of the query path *)

Lemma answer_with_sources_table E question docs w :
  table (answer_with_sources E question docs w).2 = table w.
Proof.
  unfold answer_with_sources.
  rewrite run_bind, run_lift.
  destruct (comprehension _ docs) as [e|contents]; [done|].
  rewrite run_bind, run_lift.
  destruct (join _ contents) as [e|context]; [done|].
  rewrite run_bind. unfold astream, external.
  destruct (fault E (calls w) _) as [e|]; [done|].
  match goal with |- table (?m ?w1).2 = _ =>
    change (table w) with (table w1);
    assert (quiet m) as Hq; [|by destruct (Hq w1)] end.
  apply (quiet_bind (for_each _ yield)); [apply quiet_for_each, quiet_yield|].
  intros _. apply quiet_bind.
  { destruct (llm_stream E _ _).2; by intros ?. }
  intros _. apply quiet_bind; [apply quiet_yield|].
  intros _. apply quiet_for_each, quiet_source_line.
Qed.

(** X5: the query path only reads.  Whatever happens, [query_stream] leaves
    the table as it was, and every call it makes is the embedding of the
    question, the row count, the [match_documents] procedure with the
    params of a retrieval with [k] = 3, or the chat model with the template
    of the source: never an insert, a delete, a load or another
    procedure. *)
Theorem query_stream_only_reads E question w :
  table (query_stream E question w).2 = table w
  ∧ ∃ new, calls (query_stream E question w).2 = calls w ++ new
           ∧ ∀ c, c ∈ new →
                  c = EmbedQuery question
                  ∨ c = SelectCount
                  ∨ c = Rpc "match_documents"
                          (match_params (embed_vector E question) 3)
                  ∨ ∃ inputs, c = AStream template inputs.
Proof.
  split.
  - rewrite query_stream_unfold.
    destruct (retrieve_world E question (Some 3) w) as (n & _ & Hw & _).
    destruct (retrieve_relevant_chunks E question (Some 3) w) as [[e|docs] w1];
      simpl in Hw; subst w1; [done|].
    destruct docs; [done|]. by rewrite answer_with_sources_table.
  - destruct (retrieve_world E question (Some 3) w) as (n & _ & Hw & _).
    destruct (query_stream_calls E question w) as (rest & Hcalls & Hrest).
    exists (take n (retrieval_calls E question 3) ++ rest).
    split; [rewrite Hcalls, Hw; simpl; by rewrite <- app_assoc|].
    intros c [Hin%subseteq_take|Hin]%elem_of_app.
    + unfold retrieval_calls in Hin.
      apply elem_of_cons in Hin as [->|Hin]; [by left|].
      apply elem_of_cons in Hin as [->|Hin]; [by right; left|].
      apply elem_of_cons in Hin as [->|Hin]; [by right; right; left|].
      by apply not_elem_of_nil in Hin.
    + right. right. right. by apply Hrest.
Qed.

(** X6: the row count of line 121 only feeds a printed diagnostic, but it
    is inside the [try]: when it raises, [retrieve_relevant_chunks] returns
    the empty list without calling [match_documents], and [query_stream]
    yields the fallback message only. *)
Theorem count_failure_empties_retrieval E question k w e :
  fault E (calls w) (EmbedQuery question) = None →
  fault E (calls w ++ [EmbedQuery question]) SelectCount = Some e →
  retrieve_relevant_chunks E question k w
  = (inr [], World (table w) (calls w ++ [EmbedQuery question; SelectCount])
                   (out w))
  ∧ query_stream E question w
    = (inr tt, World (table w) (calls w ++ [EmbedQuery question; SelectCount])
                     (out w ++ [fallback_message])).
Proof.
  intros He Hc. split; [by eapply retrieve_count_failure|].
  unfold query_stream.
  erewrite run_bind_ok; [|by eapply retrieve_count_failure]. reflexivity.
Qed.

Lemma count_failure_empties_retrieval_witness :
  let E := Scenario.failing Scenario.is_count in
  retrieve_relevant_chunks E "What is RAG?" None Scenario.one_record
  = (inr [], World [Scenario.stored 1]
                   [EmbedQuery "What is RAG?"; SelectCount] [])
  ∧ query_stream E "What is RAG?" Scenario.one_record
    = (inr tt, World [Scenario.stored 1]
                     [EmbedQuery "What is RAG?"; SelectCount]
                     [fallback_message]).
Proof.
  intros E.
  apply (count_failure_empties_retrieval E "What is RAG?" None
           Scenario.one_record (RemoteError "unavailable")); reflexivity.
Defined.

Lemma scores_ok_false data doc e :
  doc ∈ data →
  format_f 4 (default (PStr "N/A") (doc !! "similarity")) = inl e →
  scores_ok data = false.
Proof.
  intros Hin Hfmt. destruct (scores_ok data) eqn:Hok; [|done].
  unfold scores_ok in Hok. rewrite forallb_forall in Hok.
  specialize (Hok doc (proj1 (list_elem_of_In _ _) Hin)).
  by rewrite Hfmt in Hok.
Qed.

Lemma scores_ok_floats data :
  (∀ doc : dict, doc ∈ data → ∃ f, doc !! "similarity" = Some (PFloat f)) →
  scores_ok data = true.
Proof.
  intros Hall. unfold scores_ok. apply forallb_forall.
  intros doc Hin%list_elem_of_In. destruct (Hall doc Hin) as [f ->]. done.
Qed.

(** X7: the similarity check of lines 138-139 is all or nothing.  With the
    three calls succeeding, one returned row whose similarity is missing, or
    is a string or null, makes [retrieve_relevant_chunks] return the empty
    list; when every row's similarity is a float, the rows come back exactly
    as the store gave them, in the same order and number. *)
Theorem one_bad_similarity_empties_retrieval E question k w :
  let params := match_params (embed_vector E question) (default 4 k) in
  let data := rpc_data E "match_documents" (table w) params in
  fault E (calls w) (EmbedQuery question) = None →
  fault E (calls w ++ [EmbedQuery question]) SelectCount = None →
  fault E (calls w ++ [EmbedQuery question; SelectCount])
        (Rpc "match_documents" params) = None →
  ((∃ doc : dict, doc ∈ data
      ∧ (doc !! "similarity" = None
         ∨ doc !! "similarity" = Some PNone
         ∨ ∃ s, doc !! "similarity" = Some (PStr s))) →
   (retrieve_relevant_chunks E question k w).1 = inr [])
  ∧ ((∀ doc : dict, doc ∈ data → ∃ f, doc !! "similarity" = Some (PFloat f)) →
     (retrieve_relevant_chunks E question k w).1 = inr data).
Proof.
  intros params data He Hc Hr.
  rewrite (retrieve_no_fault E question k w He Hc Hr). fold params data.
  simpl. split.
  - intros (doc & Hin & Hbad).
    assert (∃ e, format_f 4 (default (PStr "N/A") (doc !! "similarity")) = inl e)
      as [e Hfmt].
    { destruct Hbad as [->|[->|[s ->]]]; simpl; eauto. }
    by rewrite (scores_ok_false data doc e Hin Hfmt).
  - intros Hall. by rewrite scores_ok_floats.
Qed.

Lemma one_bad_similarity_empties_retrieval_witness :
  (retrieve_relevant_chunks Scenario.unscored "What is RAG?" None
     Scenario.one_record).1 = inr []
  ∧ (retrieve_relevant_chunks Scenario.healthy "What is RAG?" None
       Scenario.one_record).1
    = inr [Scenario.match_of (Scenario.stored 1)].
Proof.
  split.
  - apply (proj1 (one_bad_similarity_empties_retrieval Scenario.unscored
                    "What is RAG?" None Scenario.one_record
                    eq_refl eq_refl eq_refl)).
    exists (delete "similarity" (Scenario.match_of (Scenario.stored 1))).
    split; [apply list_elem_of_singleton; reflexivity|by left].
  - apply (proj2 (one_bad_similarity_empties_retrieval Scenario.healthy
                    "What is RAG?" None Scenario.one_record
                    eq_refl eq_refl eq_refl)).
    intros doc Hin. apply list_elem_of_singleton in Hin as ->. by eexists.
Defined.

Lemma comprehension_has_content docs contents :
  Forall2 (λ (doc : dict) c, doc !! "content" = Some (PStr c)) docs contents →
  comprehension (λ doc : dict, subscript (PDict doc) "content") docs
  = inr (PStr <$> contents).
Proof.
  induction 1 as [|doc c docs contents Hc _ IH]; [done|].
  cbn [comprehension subscript] in IH |- *. by rewrite Hc, IH.
Qed.

Lemma comprehension_missing_content docs (doc : dict) :
  doc ∈ docs → doc !! "content" = None →
  comprehension (λ doc : dict, subscript (PDict doc) "content") docs
  = inl (KeyError "content").
Proof.
  intros Hin Hnone. induction docs as [|d docs IH]; [by apply not_elem_of_nil in Hin|].
  cbn [comprehension subscript] in IH |- *.
  destruct (d !! "content") as [x|] eqn:Hd; [|done].
  apply elem_of_cons in Hin as [->|Hin]; [congruence|].
  by rewrite IH.
Qed.

(** X8: when the model's stream breaks after some fragments,
    [query_stream] has yielded those fragments and raises the stream's
    exception: the sources section is not yielded, although the matches
    were retrieved.  The same holds, with no fragment, when the call to the
    model itself raises. *)
Theorem broken_stream_drops_sources E question w docs w1 contents :
  retrieve_relevant_chunks E question (Some 3) w = (inr docs, w1) →
  docs ≠ [] →
  Forall2 (λ (doc : dict) c, doc !! "content" = Some (PStr c)) docs contents →
  let inputs : gmap string string :=
    {[ "context" := String.concat (NL +:+ NL) contents;
       "question" := question ]} in
  (∀ frags e,
     fault E (calls w1) (AStream template inputs) = None →
     llm_stream E template inputs = (frags, Some e) →
     query_stream E question w
     = (inl e, World (table w1) (calls w1 ++ [AStream template inputs])
                     (out w1 ++ frags)))
  ∧ (∀ e,
       fault E (calls w1) (AStream template inputs) = Some e →
       query_stream E question w
       = (inl e, World (table w1) (calls w1 ++ [AStream template inputs])
                       (out w1))).
Proof.
  intros Hret Hne Hcontents inputs.
  rewrite (query_stream_nonempty E question w docs w1 Hret Hne).
  unfold answer_with_sources.
  rewrite run_bind, run_lift, (comprehension_has_content docs contents Hcontents).
  rewrite run_bind, run_lift, join_strings. fold inputs.
  split.
  - intros frags e Hfault Hstream.
    erewrite run_bind_ok; [|unfold astream; by apply run_external_ok].
    simpl. rewrite Hstream. simpl.
    rewrite run_bind, for_each_yield. simpl. by rewrite run_bind.
  - intros e Hfault.
    erewrite run_bind_raise; [reflexivity|].
    unfold astream. by apply run_external_fault.
Qed.

Lemma broken_stream_drops_sources_witness :
  query_stream Scenario.interrupted "What is RAG?" Scenario.one_record
  = (inl (RemoteError "connection reset"),
     World [Scenario.stored 1]
       (retrieval_calls Scenario.interrupted "What is RAG?" 3 ++
        [AStream template
           {[ "context" := "RAG stands for Retrieval-Augmented Generation.";
              "question" := "What is RAG?" ]}])
       ["RAG is "]).
Proof.
  apply (proj1 (broken_stream_drops_sources Scenario.interrupted
                  "What is RAG?" Scenario.one_record
                  [Scenario.match_of (Scenario.stored 1)]
                  (World [Scenario.stored 1]
                     (retrieval_calls Scenario.interrupted "What is RAG?" 3) [])
                  ["RAG stands for Retrieval-Augmented Generation."]
                  eq_refl ltac:(discriminate)
                  ltac:(by repeat constructor))
           ["RAG is "] (RemoteError "connection reset"));
    reflexivity.
Defined.

(** X9: a retrieved row that has no content key stops [query_stream]
    before the model is called: it raises KeyError, yields nothing and makes
    no call beyond the retrieval's. *)
Theorem missing_content_raises_before_generation E question w docs w1 doc :
  retrieve_relevant_chunks E question (Some 3) w = (inr docs, w1) →
  doc ∈ docs →
  doc !! "content" = None →
  query_stream E question w = (inl (KeyError "content"), w1).
Proof.
  intros Hret Hin Hnone.
  rewrite (query_stream_nonempty E question w docs w1 Hret).
  - unfold answer_with_sources.
    by rewrite run_bind, run_lift,
         (comprehension_missing_content docs doc Hin Hnone).
  - intros ->. by apply not_elem_of_nil in Hin.
Qed.

Lemma missing_content_raises_before_generation_witness :
  query_stream Scenario.contentless "What is RAG?" Scenario.one_record
  = (inl (KeyError "content"),
     World [Scenario.stored 1]
       (retrieval_calls Scenario.contentless "What is RAG?" 3) []).
Proof.
  apply (missing_content_raises_before_generation Scenario.contentless
           "What is RAG?" Scenario.one_record
           [delete "content" (Scenario.match_of (Scenario.stored 1))]
           (World [Scenario.stored 1]
              (retrieval_calls Scenario.contentless "What is RAG?" 3) [])
           (delete "content" (Scenario.match_of (Scenario.stored 1)))).
  - reflexivity.
  - by apply list_elem_of_singleton.
  - reflexivity.
Defined.

(** * Further properties of clearing *)

Lemma filter_id_zero_idem (t : list record) :
  filter (λ r, rec_id r = 0) (filter (λ r, rec_id r = 0) t)
  = filter (λ r, rec_id r = 0) t.
Proof.
  induction t as [|r t IH]; [done|].
  rewrite filter_cons. destruct (decide (rec_id r = 0)) as [Hid|Hid]; [|done].
  rewrite filter_cons. destruct (decide (rec_id r = 0)); [|done].
  by rewrite IH.
Qed.

(** X10: clearing twice is clearing once: when two successive calls of
    [clear_database] both return True, the second leaves the table exactly
    as the first left it. *)
Theorem clear_database_twice E w w1 w2 :
  clear_database E w = (inr true, w1) →
  clear_database E w1 = (inr true, w2) →
  table w2 = table w1
  ∧ calls w2 = calls w ++ [DeleteNeq "id" 0; DeleteNeq "id" 0].
Proof.
  intros [_ ->]%clear_database_success [_ ->]%clear_database_success. simpl.
  split; [apply filter_id_zero_idem|by rewrite <- app_assoc].
Qed.

Lemma clear_database_twice_witness :
  let w1 := World [Scenario.stored 0] [DeleteNeq "id" 0] [] in
  let w2 := World [Scenario.stored 0] [DeleteNeq "id" 0; DeleteNeq "id" 0] [] in
  table w2 = table w1
  ∧ calls w2 = calls Scenario.two_ids ++ [DeleteNeq "id" 0; DeleteNeq "id" 0].
Proof.
  intros w1 w2.
  apply (clear_database_twice Scenario.healthy Scenario.two_ids w1 w2);
    reflexivity.
Defined.

Lemma filter_id_zero_new E (new : list record) :
  (∀ t, fresh_id E t ≠ 0) →
  Forall (λ r, ∃ t', rec_id r = fresh_id E t') new →
  filter (λ r, rec_id r = 0) new = [].
Proof.
  intros Hfresh. induction 1 as [|r new [t' Hr] _ IH]; [done|].
  rewrite filter_cons. destruct (decide (rec_id r = 0)) as [Hid|_]; [|done].
  exfalso. apply (Hfresh t'). congruence.
Qed.

(** X11: ingesting a file and then clearing removes everything the
    ingestion stored, provided nothing raises and the store never gives a
    new record the id 0: what is left is what the filter [neq('id', 0)]
    spared of the table as it was before. *)
Theorem ingest_then_clear_round_trip E file_path loader chunks w :
  loader_for file_path = Some loader →
  (∀ h c, fault E h c = None) →
  (∀ t, fresh_id E t ≠ 0) →
  text_splitter E 1000 200 separators (read_file E loader file_path)
    = inr chunks →
  let w1 := (load_and_process_document E file_path w).2 in
  (clear_database E w1).1 = inr true
  ∧ table (clear_database E w1).2 = filter (λ r, rec_id r = 0) (table w).
Proof.
  intros Hloader Hok Hfresh Hsplit w1.
  set (rows := imap (λ j chunk, row_of E file_path j chunk) chunks).
  destruct (store_rows_app E rows (table w)) as (new & Hnew & _ & _ & _ & Hids).
  assert (table w1 = table w ++ new) as Htable.
  { unfold w1. rewrite load_and_process_unfold, Hloader.
    erewrite run_bind_ok; [|by apply run_external_ok].
    rewrite run_bind, run_lift, Hsplit.
    erewrite run_bind_ok;
      [|by apply store_chunks_no_fault; intros; apply Hok].
    simpl. by fold rows. }
  unfold clear_database, delete_neq_id.
  erewrite run_try_ok;
    [|erewrite run_bind_ok; [reflexivity|by apply run_write_ok]].
  simpl. split; [done|].
  rewrite Htable, filter_app, (filter_id_zero_new E new Hfresh Hids).
  by rewrite app_nil_r.
Qed.

Lemma ingest_then_clear_round_trip_witness :
  let w1 := (load_and_process_document Scenario.healthy "uploads/a.txt"
               Scenario.two_ids).2 in
  (clear_database Scenario.healthy w1).1 = inr true
  ∧ table (clear_database Scenario.healthy w1).2
    = filter (λ r, rec_id r = 0) (table Scenario.two_ids).
Proof.
  apply (ingest_then_clear_round_trip Scenario.healthy "uploads/a.txt"
           "TextLoader" [Scenario.chunk] Scenario.two_ids).
  - reflexivity.
  - reflexivity.
  - intros t. simpl. lia.
  - reflexivity.
Defined.

(** * Properties of the endpoints *)

(** X12: the endpoint [DELETE /clear] hides a failed clear.  When the
    store's delete raises, [clear_database] returns False, the endpoint
    discards it and answers with the success body; nothing is raised. *)
Theorem clear_endpoint_hides_failure E w e :
  fault E (calls w) (DeleteNeq "id" 0) = Some e →
  backend.clear_database E w
  = (inr {[ "success" := PBool true; "message" := PStr "Database cleared" ]},
     World (after_failed_write E (DeleteNeq "id" 0) (table w))
           (calls w ++ [DeleteNeq "id" 0]) (out w)).
Proof.
  intros Hf. unfold backend.clear_database.
  erewrite run_try_ok; [reflexivity|].
  erewrite run_bind_ok; [reflexivity|].
  by apply (clear_database_failure_run E w e).
Qed.

Lemma clear_endpoint_hides_failure_witness :
  backend.clear_database (Scenario.failing Scenario.is_delete)
    Scenario.one_record
  = (inr {[ "success" := PBool true; "message" := PStr "Database cleared" ]},
     World [Scenario.stored 1] [DeleteNeq "id" 0] []).
Proof.
  apply (clear_endpoint_hides_failure (Scenario.failing Scenario.is_delete)
           Scenario.one_record (RemoteError "unavailable")).
  reflexivity.
Defined.

(** What [upload_document] does with the outcome of the processing. *)
Lemma upload_document_unfold E filename written w :
  backend.upload_document E filename written w
  = match match written with
          | Some e => (inl e, w)
          | None => load_and_process_document E ("uploads/" +:+ filename) w
          end with
    | (inr n, w') => (inr (upload_body filename n), w')
    | (inl e, w') => (inl (upload_error E e), w')
    end.
Proof.
  unfold backend.upload_document, try_except.
  destruct written as [e|].
  - rewrite run_bind. cbn. by destruct e.
  - rewrite run_bind. cbn [mret M_ret ret]. rewrite run_bind.
    destruct (load_and_process_document E _ w) as [[e|n] w']; [|done].
    by destruct e.
Qed.

(** A run of [load_and_process_document] that returns a number has added
    that many records to the table. *)
Lemma ingestion_count_is_stored E file_path w n w' :
  load_and_process_document E file_path w = (inr n, w') →
  ∃ new, table w' = table w ++ new ∧ length new = n.
Proof.
  rewrite load_and_process_unfold.
  destruct (loader_for file_path) as [loader|]; [|discriminate].
  rewrite run_bind. unfold external.
  destruct (fault E (calls w) _) as [e|]; [discriminate|].
  rewrite run_bind, run_lift.
  destruct (text_splitter E 1000 200 separators _) as [e|chunks];
    [discriminate|].
  rewrite run_bind.
  match goal with |- context [_store_chunks E chunks file_path ?w1] =>
    destruct (store_chunks_runs E chunks file_path w1)
      as [Hrun|[(e & Hrun)|(k & e & Hrun)]]; rewrite Hrun end;
    [|discriminate..].
  simpl. intros [= <- <-]. simpl.
  match goal with |- context [store_rows E ?t ?rows] =>
    destruct (store_rows_app E rows t) as (new & Hnew & Hc & _) end.
  exists new. split; [done|].
  apply (f_equal length) in Hc. rewrite !length_fmap, length_imap in Hc.
  done.
Qed.

(** X13: whatever happens, [upload_document] either answers with the
    success body, and the number of chunks in its message is the number of
    records the run added to the table, or raises an HTTPException whose
    status is 400 or 500; no other exception leaves it. *)
Theorem upload_raises_only_http_errors E filename written w :
  match backend.upload_document E filename written w with
  | (inr body, w') =>
      ∃ n new, body = upload_body filename n
               ∧ table w' = table w ++ new ∧ length new = n
  | (inl (HTTPException status _), _) => status = 400 ∨ status = 500
  | (inl _, _) => False
  end.
Proof.
  rewrite upload_document_unfold.
  destruct written as [e|].
  { destruct e; simpl; auto. }
  destruct (load_and_process_document E _ w) as [[e|n] w'] eqn:Hrun.
  { destruct e; simpl; auto. }
  destruct (ingestion_count_is_stored E _ w n w' Hrun) as (new & Ht & Hn).
  by exists n, new.
Qed.

(** X14: an upload whose name ends neither in .pdf nor in .txt is answered
    with status 400, after the file was written to [uploads/]: nothing is
    loaded, embedded or stored. *)
Theorem upload_rejects_other_extensions E filename w :
  endswith ("uploads/" +:+ filename) ".pdf" = false →
  endswith ("uploads/" +:+ filename) ".txt" = false →
  backend.upload_document E filename None w
  = (inl (HTTPException 400
            ("Invalid file type: " +:+
             str_exception E (ValueError "Unsupported file type"))), w).
Proof.
  intros Hpdf Htxt. rewrite upload_document_unfold, load_and_process_unfold.
  unfold loader_for. by rewrite Hpdf, Htxt.
Qed.

Lemma upload_rejects_other_extensions_witness :
  backend.upload_document Scenario.healthy "report.docx" None
    Scenario.one_record
  = (inl (HTTPException 400 "Invalid file type: unavailable"),
     Scenario.one_record).
Proof.
  apply (upload_rejects_other_extensions Scenario.healthy "report.docx"
           Scenario.one_record); reflexivity.
Defined.

(** X15: the status 400 does not single out a bad file type.  Any
    ValueError of the processing is answered as an invalid file type: here
    the loader of a .pdf or .txt upload raises one, and the answer is 400
    with the same prefix; any other exception of the loader gives 500. *)
Theorem upload_reports_any_value_error_as_file_type E filename loader w e :
  loader_for ("uploads/" +:+ filename) = Some loader →
  fault E (calls w) (LoadFile loader ("uploads/" +:+ filename)) = Some e →
  backend.upload_document E filename None w
  = (inl (match e with
          | ValueError _ =>
              HTTPException 400 ("Invalid file type: " +:+ str_exception E e)
          | _ =>
              HTTPException 500
                ("Failed to upload document: " +:+ str_exception E e)
          end),
     World (table w)
           (calls w ++ [LoadFile loader ("uploads/" +:+ filename)]) (out w)).
Proof.
  intros Hloader Hf.
  rewrite upload_document_unfold, load_and_process_unfold, Hloader.
  erewrite run_bind_raise; [|by apply run_external_fault].
  by destruct e.
Qed.

Lemma upload_reports_any_value_error_as_file_type_witness :
  backend.upload_document Scenario.unreadable "a.txt" None Scenario.one_record
  = (inl (HTTPException 400 "Invalid file type: unavailable"),
     World [Scenario.stored 1] [LoadFile "TextLoader" "uploads/a.txt"] []).
Proof.
  apply (upload_reports_any_value_error_as_file_type Scenario.unreadable
           "a.txt" "TextLoader" Scenario.one_record
           (ValueError "embedded null byte")); reflexivity.
Defined.

(** X16: an outage never reaches the client of [POST /query] as an error.
    When the retrieval comes back empty, which is also what a failure of the
    embedding provider or of the store gives, the generator of the endpoint
    yields exactly one frame, the fallback message between the prefix
    [data: ] and two newlines, and ends normally. *)
Theorem query_endpoint_streams_fallback_frame E question w :
  (retrieve_relevant_chunks E question (Some 3)
     (World (table w) (calls w) [])).1 = inr [] →
  ∃ new,
    backend.generate E question w
    = (inr tt,
       World (table w) (calls w ++ new)
             (out w ++ ["data: " +:+ fallback_message +:+ NL +:+ NL]))
    ∧ ∀ t inputs, AStream t inputs ∉ new.
Proof.
  intros Hempty. unfold backend.generate.
  set (w0 := World (table w) (calls w) []) in *.
  destruct (retrieve_world E question (Some 3) w0) as (n & _ & Hw & _).
  rewrite query_stream_unfold.
  destruct (retrieve_relevant_chunks E question (Some 3) w0) as [r w1].
  simpl in Hempty, Hw. subst r w1. simpl.
  eexists. split; [reflexivity|].
  intros t inputs Hin%subseteq_take. unfold retrieval_calls in Hin.
  repeat (apply elem_of_cons in Hin as [Heq|Hin]; [discriminate Heq|]).
  by apply not_elem_of_nil in Hin.
Qed.

Lemma query_endpoint_streams_fallback_frame_witness :
  ∃ new,
    backend.generate (Scenario.failing Scenario.is_embed) "What is RAG?"
      Scenario.one_record
    = (inr tt,
       World [Scenario.stored 1] ([] ++ new)
             ([] ++ ["data: " +:+ fallback_message +:+ NL +:+ NL]))
    ∧ ∀ t inputs, AStream t inputs ∉ new.
Proof.
  apply (query_endpoint_streams_fallback_frame
           (Scenario.failing Scenario.is_embed) "What is RAG?"
           Scenario.one_record).
  reflexivity.
Defined.

(** * Properties of the constructor and of the standalone pipeline *)

Lemma unset_false v :
  unset v = false → ∃ s, v = Some s ∧ s ≠ "".
Proof.
  destruct v as [s|]; [|discriminate]. simpl. intros Hs.
  exists s. split; [done|]. intros ->. discriminate.
Qed.

(** X17: a [SupabaseRAG] is only ever built from a complete configuration:
    when [__init__] succeeds, the three environment variables were set to
    non-empty strings, and the clients were built from exactly these. *)
Theorem init_needs_every_setting {A} environ (connect : config → exn + A) a :
  __init__ environ connect = inr a →
  ∃ url key openai,
    environ !! "SUPABASE_URL" = Some url ∧ url ≠ ""
    ∧ environ !! "SUPABASE_SERVICE_KEY" = Some key ∧ key ≠ ""
    ∧ environ !! "OPENAI_API_KEY" = Some openai ∧ openai ≠ ""
    ∧ connect (Config url key openai) = inr a.
Proof.
  unfold __init__. intros Hrun.
  destruct (unset (environ !! "SUPABASE_URL")) eqn:Hu; [discriminate|].
  destruct (unset (environ !! "SUPABASE_SERVICE_KEY")) eqn:Hk; [discriminate|].
  destruct (unset (environ !! "OPENAI_API_KEY")) eqn:Ho; [discriminate|].
  apply unset_false in Hu as (url & Hu & ?).
  apply unset_false in Hk as (key & Hk & ?).
  apply unset_false in Ho as (openai & Ho & ?).
  rewrite Hu, Hk, Ho in Hrun. exists url, key, openai. by repeat split.
Qed.

Lemma init_needs_every_setting_witness :
  ∃ url key openai,
    Scenario.environ !! "SUPABASE_URL" = Some url ∧ url ≠ ""
    ∧ Scenario.environ !! "SUPABASE_SERVICE_KEY" = Some key ∧ key ≠ ""
    ∧ Scenario.environ !! "OPENAI_API_KEY" = Some openai ∧ openai ≠ ""
    ∧ (inr (Config url key openai) : exn + config)
      = inr (Config "https://db.example" "service-key" "sk-key").
Proof.
  apply (init_needs_every_setting Scenario.environ (λ c, inr c)
           (Config "https://db.example" "service-key" "sk-key")).
  reflexivity.
Defined.

(** X18: a variable that is set to the empty string counts as not set, and
    the first missing variable, in the order SUPABASE_URL,
    SUPABASE_SERVICE_KEY, OPENAI_API_KEY, is the one the ValueError names;
    the clients are not built. *)
Theorem init_names_first_missing_setting {A} environ
    (connect : config → exn + A) :
  (environ !! "SUPABASE_URL" = None ∨ environ !! "SUPABASE_URL" = Some "" →
   __init__ environ connect
   = inl (ValueError "SUPABASE_URL environment variable not set."))
  ∧ (unset (environ !! "SUPABASE_URL") = false →
     environ !! "SUPABASE_SERVICE_KEY" = None
     ∨ environ !! "SUPABASE_SERVICE_KEY" = Some "" →
     __init__ environ connect
     = inl (ValueError "SUPABASE_SERVICE_KEY environment variable not set."))
  ∧ (unset (environ !! "SUPABASE_URL") = false →
     unset (environ !! "SUPABASE_SERVICE_KEY") = false →
     environ !! "OPENAI_API_KEY" = None
     ∨ environ !! "OPENAI_API_KEY" = Some "" →
     __init__ environ connect
     = inl (ValueError "OPENAI_API_KEY environment variable not set.")).
Proof.
  unfold __init__. repeat split.
  - by intros [->| ->].
  - intros -> [->| ->]; done.
  - intros -> -> [->| ->]; done.
Qed.

Lemma init_names_first_missing_setting_witness :
  __init__ (<[ "SUPABASE_SERVICE_KEY" := "" ]> (delete "OPENAI_API_KEY"
                                                    Scenario.environ))
    (λ c, inr c : exn + config)
  = inl (ValueError "SUPABASE_SERVICE_KEY environment variable not set.").
Proof.
  apply (proj1 (proj2 (init_names_first_missing_setting _ _))).
  - reflexivity.
  - by right.
Defined.

Lemma ingestion_calls_start E file_path loader w :
  ∃ rest,
    calls ((documents ← external E (LoadFile loader file_path)
                          (λ _, read_file E loader file_path);
            chunks ← lift (text_splitter E 1000 200 separators documents);
            _store_chunks E chunks file_path;;
            mret (length chunks)) w).2
    = calls w ++ LoadFile loader file_path :: rest.
Proof.
  rewrite run_bind. unfold external.
  destruct (fault E (calls w) (LoadFile loader file_path)) as [e|];
    [by exists []|].
  rewrite run_bind, run_lift.
  destruct (text_splitter E 1000 200 separators _) as [e|chunks];
    [by exists []|].
  rewrite run_bind.
  match goal with |- context [_store_chunks E chunks file_path ?w1] =>
    destruct (store_chunks_calls E chunks file_path w1)
      as [(rows & _ & Hc)|(n & _ & Hc)];
    destruct (_store_chunks E chunks file_path w1) as [[e|[]] w2] end;
    simpl in *; rewrite Hc, <- app_assoc; eauto.
Qed.

(** X19: the two pipelines accept the same files.  [load_documents] makes
    no call exactly when [load_and_process_document] makes none, which is
    when the path ends neither in .pdf nor in .txt and both raise
    ValueError; otherwise both start by the same load call. *)
Theorem pipelines_accept_the_same_files E file_path w :
  (loader_for file_path = None
   ∧ RAGPipeline.load_documents E file_path w
     = (inl (ValueError "Unsupported file type. Use .pdf or .txt"), w)
   ∧ load_and_process_document E file_path w
     = (inl (ValueError "Unsupported file type"), w))
  ∨ (∃ loader rest,
       loader_for file_path = Some loader
       ∧ calls (RAGPipeline.load_documents E file_path w).2
         = calls w ++ [LoadFile loader file_path]
       ∧ calls (load_and_process_document E file_path w).2
         = calls w ++ LoadFile loader file_path :: rest
       ∧ ((RAGPipeline.load_documents E file_path w).1
          = inr (read_file E loader file_path)
          ∨ ∃ e, fault E (calls w) (LoadFile loader file_path) = Some e
                 ∧ (RAGPipeline.load_documents E file_path w).1 = inl e
                 ∧ (load_and_process_document E file_path w).1 = inl e)).
Proof.
  assert (RAGPipeline.load_documents E file_path w
          = match loader_for file_path with
            | None =>
                (inl (ValueError "Unsupported file type. Use .pdf or .txt"), w)
            | Some loader =>
                external E (LoadFile loader file_path)
                  (λ _, read_file E loader file_path) w
            end) as Hload.
  { unfold RAGPipeline.load_documents, loader_for.
    destruct (endswith file_path ".pdf"); [done|].
    by destruct (endswith file_path ".txt"). }
  rewrite Hload, load_and_process_unfold.
  destruct (loader_for file_path) as [loader|]; [right|by left].
  destruct (ingestion_calls_start E file_path loader w) as (rest & Hrest).
  exists loader, rest. split; [done|].
  split; [apply external_trace|]. split; [done|].
  destruct (fault E (calls w) (LoadFile loader file_path)) as [e|] eqn:Hf.
  - right. exists e. split; [done|].
    rewrite (run_external_fault E _ _ w e Hf). split; [done|].
    erewrite run_bind_raise; [reflexivity|]. by apply run_external_fault.
  - left. by rewrite (run_external_ok E _ _ w Hf).
Qed.
